(** * MedVani chat client: session store, message exchange and voice capture

    A shallow embedding of [frontend/components/useChatStore.ts] and of the
    state-changing functions of [frontend/components/ChatInterface.tsx].

    Conventions of the embedding.
    - A JavaScript string is a [string] whose characters are read as code
      units in the Latin-1 range; [trim] and [toLowerCase] follow ECMAScript
      on that range.
    - [messagesBySession] (a plain object used as a dictionary and always
      rebuilt by spread, never mutated in place) and the table of
      [normalizeUiLanguage] are plain objects: their own entries are a
      [gmap string _]; spread, computed keys and [delete] work on the own
      entries, while a read [obj[key]] that finds no own entry goes on to
      the members every object inherits from [Object.prototype].
    - [string | null] and optional fields are [option]; [undefined] and
      [null] are both [None], since the code only tests them with [??] or
      for truthiness.
    - Asynchronous functions are run to completion without another handler
      interleaved at their [await] points; what the outside world answers
      (HTTP outcome, random id, microphone) is a parameter. *)

From stdpp Require Import gmap strings list fin_maps.
From Stdlib Require Import Ascii String.

Local Open Scope string_scope.
Local Open Scope list_scope.

(** ** Reading a key of a plain object *)

Module JsObject.

(** The names of the members of [Object.prototype]. *)
Definition objectPrototypeMembers : list string :=
  [ "constructor"; "__defineGetter__"; "__defineSetter__"; "hasOwnProperty";
    "__lookupGetter__"; "__lookupSetter__"; "isPrototypeOf";
    "propertyIsEnumerable"; "toString"; "valueOf"; "__proto__";
    "toLocaleString" ].

Definition inheritedMember (key : string) : bool :=
  existsb (String.eqb key) objectPrototypeMembers.

(** What [obj[key]] gives: the own entry, the inherited member of that name
    (a function, or [Object.prototype] itself for [__proto__]; never
    [null], never iterable), or [undefined]. *)
Inductive Got (A : Type) :=
| Own (a : A)
| Inherited (member : string)
| Undefined.
Arguments Own {A} a.
Arguments Inherited {A} member.
Arguments Undefined {A}.

Definition get {A} (own : gmap string A) (key : string) : Got A :=
  match own !! key with
  | Some a => Own a
  | None => if inheritedMember key then Inherited key else Undefined
  end.

End JsObject.

(** ** The store: [useChatStore.ts] *)

Module Store.

Inductive Role := user | assistant.

Inductive MediaKind := image | video | pdf | audio.

Record MediaAttachment := {
  kind : MediaKind;
  content : string;
  name : option string;
}.

Record ChatMessage := {
  role : Role;
  text : string;
  media : option (list MediaAttachment);
}.

Record SessionItem := {
  id : string;
  title : string;
  updated_at : option string;
}.

(** What the [language] slot holds.  It is typed [string]; the one value
    that is not a string comes from [normalizeUiLanguage], which can hand a
    member of [Object.prototype] to [setLanguage]. *)
Inductive Lang :=
| Code (code : string)
| Member (name : string).

Record ChatState := {
  sessions : list SessionItem;
  activeSessionId : option string;
  messagesBySession : gmap string (list ChatMessage);
  language : Lang;
}.

(** The initial state passed to [create]. *)
Definition initial : ChatState :=
  {| sessions := [];
     activeSessionId := None;
     messagesBySession := ∅;
     language := Code "auto" |}.

Definition setLanguage (lang : Lang) (state : ChatState) : ChatState :=
  {| sessions := sessions state;
     activeSessionId := activeSessionId state;
     messagesBySession := messagesBySession state;
     language := lang |}.

Definition setSessions (ss : list SessionItem) (state : ChatState) : ChatState :=
  {| sessions := ss;
     activeSessionId := activeSessionId state;
     messagesBySession := messagesBySession state;
     language := language state |}.

Definition setActiveSession (a : option string) (state : ChatState) : ChatState :=
  {| sessions := sessions state;
     activeSessionId := a;
     messagesBySession := messagesBySession state;
     language := language state |}.

(** [set] merges the partial object an updater returns into the state; the
    three message-log operations return only [messagesBySession]. *)
Definition withMessages (m : gmap string (list ChatMessage)) (state : ChatState)
  : ChatState :=
  {| sessions := sessions state;
     activeSessionId := activeSessionId state;
     messagesBySession := m;
     language := language state |}.

Definition setMessages (sessionId : string) (messages : list ChatMessage)
    (state : ChatState) : ChatState :=
  withMessages (<[sessionId := messages]> (messagesBySession state)) state.

(** [state.messagesBySession[sessionId] ?? []]: the log of the session, the
    empty list when nothing is found, and [None] when what is found is a
    member of [Object.prototype], which is not a list. *)
Definition messagesOf (state : ChatState) (sessionId : string)
  : option (list ChatMessage) :=
  match JsObject.get (messagesBySession state) sessionId with
  | JsObject.Own ms => Some ms
  | JsObject.Inherited _ => None
  | JsObject.Undefined => Some []
  end.

(** The updater of [appendMessage].  Spreading a member of
    [Object.prototype] into the new array throws a [TypeError]: [None]. *)
Definition appended (sessionId : string) (message : ChatMessage)
    (state : ChatState) : option ChatState :=
  match messagesOf state sessionId with
  | Some ms =>
      Some (withMessages
              (<[sessionId := ms ++ [message]]> (messagesBySession state)) state)
  | None => None
  end.

(** The state after a call of [appendMessage]: when the updater throws,
    [set] stores nothing and the state is the one before the call. *)
Definition appendMessage (sessionId : string) (message : ChatMessage)
    (state : ChatState) : ChatState :=
  default state (appended sessionId message state).

Definition clearSessionMessages (sessionId : string) (state : ChatState) : ChatState :=
  withMessages (<[sessionId := []]> (messagesBySession state)) state.

Definition removeSession (sessionId : string) (state : ChatState) : ChatState :=
  let nextSessions := filter (λ s, id s ≠ sessionId) (sessions state) in
  let nextMessages := delete sessionId (messagesBySession state) in
  let nextActive :=
    if decide (activeSessionId state = Some sessionId) then None
    else activeSessionId state in
  {| sessions := nextSessions;
     activeSessionId := nextActive;
     messagesBySession := nextMessages;
     language := language state |}.

Definition retitle (sessionId newTitle : string) (s : SessionItem) : SessionItem :=
  if decide (id s = sessionId)
  then {| id := id s; title := newTitle; updated_at := updated_at s |}
  else s.

Definition updateSessionTitle (sessionId newTitle : string) (state : ChatState)
  : ChatState :=
  {| sessions := retitle sessionId newTitle <$> sessions state;
     activeSessionId := activeSessionId state;
     messagesBySession := messagesBySession state;
     language := language state |}.

(** The store's mutators as data, to speak about sequences of calls. *)
Inductive StoreOp :=
| OpSetLanguage (lang : Lang)
| OpSetSessions (ss : list SessionItem)
| OpSetActiveSession (a : option string)
| OpSetMessages (sessionId : string) (messages : list ChatMessage)
| OpAppendMessage (sessionId : string) (message : ChatMessage)
| OpClearSessionMessages (sessionId : string)
| OpRemoveSession (sessionId : string)
| OpUpdateSessionTitle (sessionId newTitle : string).

Definition apply_op (op : StoreOp) (state : ChatState) : ChatState :=
  match op with
  | OpSetLanguage lang => setLanguage lang state
  | OpSetSessions ss => setSessions ss state
  | OpSetActiveSession a => setActiveSession a state
  | OpSetMessages i ms => setMessages i ms state
  | OpAppendMessage i m => appendMessage i m state
  | OpClearSessionMessages i => clearSessionMessages i state
  | OpRemoveSession i => removeSession i state
  | OpUpdateSessionTitle i t => updateSessionTitle i t state
  end.

(** Calls are applied left to right. *)
Fixpoint run (ops : list StoreOp) (state : ChatState) : ChatState :=
  match ops with
  | [] => state
  | op :: rest => run rest (apply_op op state)
  end.

(** [i] is the id of a session of the session set. *)
Definition hasSession (ss : list SessionItem) (i : string) : Prop :=
  ∃ s, s ∈ ss ∧ id s = i.

#[global] Instance hasSession_dec ss i : Decision (hasSession ss i).
Proof.
  refine (cast_if (decide (Exists (λ s, id s = i) ss)));
    unfold hasSession; rewrite Exists_exists in *; naive_solver.
Defined.

(** [activeSessionId], if non-null, names a session of the set. *)
Definition active_valid (state : ChatState) : Prop :=
  ∀ i, activeSessionId state = Some i → hasSession (sessions state) i.

(** Every key of [messagesBySession] is the id of a session of the set. *)
Definition keys_valid (state : ChatState) : Prop :=
  ∀ k, is_Some (messagesBySession state !! k) → hasSession (sessions state) k.

(** What the store leaves to its callers: it validates neither the id given
    to [setActiveSession] nor the list given to [setSessions].  A call
    [keeps_active] when it cannot leave [activeSessionId] dangling. *)
Definition keeps_active (state : ChatState) (op : StoreOp) : Prop :=
  match op with
  | OpSetActiveSession (Some i) => hasSession (sessions state) i
  | OpSetSessions ss =>
      match activeSessionId state with
      | Some i => hasSession ss i
      | None => True
      end
  | _ => True
  end.

(** A call [keeps_keys] when it writes a message log only for a session of
    the set, and replaces the set only by one that still has a session for
    every key. *)
Definition keeps_keys (state : ChatState) (op : StoreOp) : Prop :=
  match op with
  | OpSetMessages i _ | OpAppendMessage i _ | OpClearSessionMessages i =>
      hasSession (sessions state) i
  | OpSetSessions ss =>
      map_Forall (λ k _, hasSession ss k) (messagesBySession state)
  | _ => True
  end.

(** Every call of [ops] satisfies [ok] in the state it is made in. *)
Fixpoint respects (ok : ChatState → StoreOp → Prop) (ops : list StoreOp)
    (state : ChatState) : Prop :=
  match ops with
  | [] => True
  | op :: rest => ok state op ∧ respects ok rest (apply_op op state)
  end.

(** A run of [appendMessage] calls on one session, made one after the
    other by one caller: the first that throws ends the run. *)
Fixpoint appendAll (sessionId : string) (messages : list ChatMessage)
    (state : ChatState) : option ChatState :=
  match messages with
  | [] => Some state
  | message :: rest =>
      match appended sessionId message state with
      | Some next => appendAll sessionId rest next
      | None => None
      end
  end.

(** [appendMessage] goes through for [i]: the session has a log of its own,
    or its id is not the name of a member of [Object.prototype]. *)
Definition appendable (state : ChatState) (i : string) : Prop :=
  is_Some (messagesOf state i).

(** [state'] differs from [state] at most in the message log of [i]. *)
Definition unchanged_outside (i : string) (state state' : ChatState) : Prop :=
  sessions state' = sessions state
  ∧ activeSessionId state' = activeSessionId state
  ∧ language state' = language state
  ∧ ∀ j, j ≠ i → messagesBySession state' !! j = messagesBySession state !! j.

End Store.

(** ** The string primitives the component relies on *)

Module Js.

(** [WhiteSpace] and [LineTerminator] code units below 256: TAB, LF, VT, FF,
    CR, SP and NBSP. *)
Definition isWhiteSpace (c : ascii) : bool :=
  let n := N_of_ascii c in
  ((9 <=? n) && (n <=? 13) || (n =? 32) || (n =? 160))%N.

Fixpoint trimStart (s : string) : string :=
  match s with
  | EmptyString => EmptyString
  | String c rest => if isWhiteSpace c then trimStart rest else s
  end.

Fixpoint trimEnd (s : string) : string :=
  match s with
  | EmptyString => EmptyString
  | String c rest =>
      match trimEnd rest with
      | EmptyString => if isWhiteSpace c then EmptyString else String c EmptyString
      | kept => String c kept
      end
  end.

(** [String.prototype.trim] *)
Definition trim (s : string) : string := trimEnd (trimStart s).

(** Upper-case letters below 256 are A-Z and U+00C0-U+00DE without the
    multiplication sign U+00D7; each has its lower-case form 32 above. *)
Definition lowerChar (c : ascii) : ascii :=
  let n := N_of_ascii c in
  if ((65 <=? n) && (n <=? 90) || (192 <=? n) && (n <=? 222) && negb (n =? 215))%N
  then ascii_of_N (n + 32)
  else c.

(** [String.prototype.toLowerCase] *)
Fixpoint toLowerCase (s : string) : string :=
  match s with
  | EmptyString => EmptyString
  | String c rest => String (lowerChar c) (toLowerCase rest)
  end.

(** A string is truthy when it is not empty. *)
Definition truthy (s : string) : bool := negb (String.eqb s "").

(** Truthiness of a [string | null | undefined]. *)
Definition truthyOpt (o : option string) : bool :=
  match o with
  | Some s => truthy s
  | None => false
  end.

End Js.

(** ** The component: [ChatInterface.tsx] *)

Module Chat.

(** The [map] literal of [normalizeUiLanguage], in source order. *)
Definition languageTable : list (string * string) :=
  [ ("en", "en-IN"); ("en-in", "en-IN");
    ("hi", "hi-IN"); ("hi-in", "hi-IN");
    ("ta", "ta-IN"); ("ta-in", "ta-IN");
    ("bn", "bn-IN"); ("bn-in", "bn-IN");
    ("te", "te-IN"); ("te-in", "te-IN");
    ("mr", "mr-IN"); ("mr-in", "mr-IN") ].

Definition languageMap : gmap string string := list_to_map languageTable.

(** [map[lowered] ?? code] reads the table as a plain object: a code that
    is the name of a member of [Object.prototype] gets that member. *)
Definition normalizeUiLanguage (code : string) : Store.Lang :=
  let lowered := Js.toLowerCase (Js.trim code) in
  if negb (Js.truthy lowered) then Store.Code "en-IN"
  else if String.eqb lowered "auto" then Store.Code "auto"
  else
    match JsObject.get languageMap lowered with
    | JsObject.Own full => Store.Code full
    | JsObject.Inherited member => Store.Member member
    | JsObject.Undefined => Store.Code code
    end.

(** [language === "auto"] *)
Definition isAuto (language : Store.Lang) : bool :=
  match language with
  | Store.Code code => String.eqb code "auto"
  | Store.Member _ => false
  end.

(** *** What the outside world answers *)

(** The body of a response as [res.json()] sees it: not JSON (the promise
    rejects), [null] (reading a member throws), or a value whose members
    are read. *)
Inductive Json (A : Type) :=
| JsonInvalid
| JsonNull
| JsonValue (a : A).
Arguments JsonInvalid {A}.
Arguments JsonNull {A}.
Arguments JsonValue {A} a.

(** The outcome of one [fetch]: the promise rejects, or a response arrives
    with its [ok] flag and body. *)
Inductive Fetched (A : Type) :=
| NetworkError
| Response (ok : bool) (body : Json A).
Arguments NetworkError {A}.
Arguments Response {A} ok body.

Record SessionApi := {
  api_id : string;
  api_title : option string;
  api_updated_at : option string;
}.

Record ChatApiResponse := {
  session_id : string;
  chat_title : option string;
  response : option string;
}.

Inductive Stream := MicStream.
Inductive Recorder := RecorderOn (s : Stream).

Record Env := {
  sessionNewReply : Fetched SessionApi;
  chatReply : Fetched ChatApiResponse;
  randomUUID : string;
  (** [getUserMedia] resolves with a stream or rejects *)
  microphone : option Stream;
  (** [new MediaRecorder(stream)] followed by [start()] succeeds *)
  recorderStarts : bool;
}.

(** *** Component state and observable effects *)

Inductive SpeechRec := LiveRec (lang : Store.Lang).

Record Component := {
  store : Store.ChatState;
  user : option string;
  input : string;
  media : list Store.MediaAttachment;
  loading : bool;
  recording : bool;
  voiceBusy : bool;
  voiceError : string;
  speechRef : option SpeechRec;
  mediaRecorderRef : option Recorder;
  mediaStreamRef : option Stream;
  audioChunksRef : list string;
}.

Inductive Request :=
| PostSessionNew (user_id : string)
| PostChat (user_id sessionId message : string)
    (language_lock : option Store.Lang) (sent : list (string * string))
| Delete (sessionId user_id : string).

Inductive Task := LoadSessions (uid : string).

Inductive Effect :=
| Fetch (r : Request)
| SetTimeout (task : Task) (ms : N)
| GetUserMedia.

(** *** Handlers as state transformers that may throw *)

Inductive Completion (A : Type) :=
| Normal (a : A)
| Thrown.
Arguments Normal {A} a.
Arguments Thrown {A}.

(** The state a handler works on: the component (with the store) and the
    effects issued so far, oldest first. *)
Definition World : Type := Component * list Effect.

Definition Act (A : Type) : Type := World → Completion A * World.

#[global] Instance Act_ret : MRet Act := λ A a w, (Normal a, w).

#[global] Instance Act_bind : MBind Act := λ A B k m w,
  match m w with
  | (Normal a, w') => k a w'
  | (Thrown, w') => (Thrown, w')
  end.

Definition throw {A} : Act A := λ w, (Thrown, w).

Definition emit (e : Effect) : Act unit := λ w, (Normal (), (w.1, w.2 ++ [e])).

Definition reads {A} (f : Component → A) : Act A := λ w, (Normal (f w.1), w).

Definition update (f : Component → Component) : Act unit :=
  λ w, (Normal (), (f w.1, w.2)).

(** [try { body } catch { handler }] *)
Definition tryCatch {A} (body handler : Act A) : Act A := λ w,
  match body w with
  | (Normal a, w') => (Normal a, w')
  | (Thrown, w') => handler w'
  end.

(** [try { body } finally { fin }] *)
Definition tryFinally {A} (body : Act A) (fin : Act unit) : Act A := λ w,
  match body w with
  | (r, w') =>
      match fin w' with
      | (Normal _, w'') => (r, w'')
      | (Thrown, w'') => (Thrown, w'')
      end
  end.

(** *** State setters ([useState] setters, ref assignments, store calls) *)


Definition onStore (f : Store.ChatState → Store.ChatState) (c : Component) : Component :=
  {| store := f (store c);
     user := user c;
     input := input c;
     media := media c;
     loading := loading c;
     recording := recording c;
     voiceBusy := voiceBusy c;
     voiceError := voiceError c;
     speechRef := speechRef c;
     mediaRecorderRef := mediaRecorderRef c;
     mediaStreamRef := mediaStreamRef c;
     audioChunksRef := audioChunksRef c |}.

Definition setInput (v : string) (c : Component) : Component :=
  {| store := store c;
     user := user c;
     input := v;
     media := media c;
     loading := loading c;
     recording := recording c;
     voiceBusy := voiceBusy c;
     voiceError := voiceError c;
     speechRef := speechRef c;
     mediaRecorderRef := mediaRecorderRef c;
     mediaStreamRef := mediaStreamRef c;
     audioChunksRef := audioChunksRef c |}.

Definition setMedia (v : list Store.MediaAttachment) (c : Component) : Component :=
  {| store := store c;
     user := user c;
     input := input c;
     media := v;
     loading := loading c;
     recording := recording c;
     voiceBusy := voiceBusy c;
     voiceError := voiceError c;
     speechRef := speechRef c;
     mediaRecorderRef := mediaRecorderRef c;
     mediaStreamRef := mediaStreamRef c;
     audioChunksRef := audioChunksRef c |}.

Definition setLoading (v : bool) (c : Component) : Component :=
  {| store := store c;
     user := user c;
     input := input c;
     media := media c;
     loading := v;
     recording := recording c;
     voiceBusy := voiceBusy c;
     voiceError := voiceError c;
     speechRef := speechRef c;
     mediaRecorderRef := mediaRecorderRef c;
     mediaStreamRef := mediaStreamRef c;
     audioChunksRef := audioChunksRef c |}.

Definition setRecording (v : bool) (c : Component) : Component :=
  {| store := store c;
     user := user c;
     input := input c;
     media := media c;
     loading := loading c;
     recording := v;
     voiceBusy := voiceBusy c;
     voiceError := voiceError c;
     speechRef := speechRef c;
     mediaRecorderRef := mediaRecorderRef c;
     mediaStreamRef := mediaStreamRef c;
     audioChunksRef := audioChunksRef c |}.

Definition setVoiceBusy (v : bool) (c : Component) : Component :=
  {| store := store c;
     user := user c;
     input := input c;
     media := media c;
     loading := loading c;
     recording := recording c;
     voiceBusy := v;
     voiceError := voiceError c;
     speechRef := speechRef c;
     mediaRecorderRef := mediaRecorderRef c;
     mediaStreamRef := mediaStreamRef c;
     audioChunksRef := audioChunksRef c |}.

Definition setVoiceError (v : string) (c : Component) : Component :=
  {| store := store c;
     user := user c;
     input := input c;
     media := media c;
     loading := loading c;
     recording := recording c;
     voiceBusy := voiceBusy c;
     voiceError := v;
     speechRef := speechRef c;
     mediaRecorderRef := mediaRecorderRef c;
     mediaStreamRef := mediaStreamRef c;
     audioChunksRef := audioChunksRef c |}.

Definition setSpeechRef (v : option SpeechRec) (c : Component) : Component :=
  {| store := store c;
     user := user c;
     input := input c;
     media := media c;
     loading := loading c;
     recording := recording c;
     voiceBusy := voiceBusy c;
     voiceError := voiceError c;
     speechRef := v;
     mediaRecorderRef := mediaRecorderRef c;
     mediaStreamRef := mediaStreamRef c;
     audioChunksRef := audioChunksRef c |}.

Definition setMediaRecorderRef (v : option Recorder) (c : Component) : Component :=
  {| store := store c;
     user := user c;
     input := input c;
     media := media c;
     loading := loading c;
     recording := recording c;
     voiceBusy := voiceBusy c;
     voiceError := voiceError c;
     speechRef := speechRef c;
     mediaRecorderRef := v;
     mediaStreamRef := mediaStreamRef c;
     audioChunksRef := audioChunksRef c |}.

Definition setMediaStreamRef (v : option Stream) (c : Component) : Component :=
  {| store := store c;
     user := user c;
     input := input c;
     media := media c;
     loading := loading c;
     recording := recording c;
     voiceBusy := voiceBusy c;
     voiceError := voiceError c;
     speechRef := speechRef c;
     mediaRecorderRef := mediaRecorderRef c;
     mediaStreamRef := v;
     audioChunksRef := audioChunksRef c |}.

Definition setAudioChunksRef (v : list string) (c : Component) : Component :=
  {| store := store c;
     user := user c;
     input := input c;
     media := media c;
     loading := loading c;
     recording := recording c;
     voiceBusy := voiceBusy c;
     voiceError := voiceError c;
     speechRef := speechRef c;
     mediaRecorderRef := mediaRecorderRef c;
     mediaStreamRef := mediaStreamRef c;
     audioChunksRef := v |}.

(** *** Primitive steps *)

Definition onStoreDo (f : Store.ChatState → Store.ChatState) : Act unit :=
  update (onStore f).

(** A store call whose updater may throw: the exception reaches the caller
    and the store is left as it was. *)
Definition onStoreTry (f : Store.ChatState → option Store.ChatState) : Act unit :=
  λ w,
    match f (store w.1) with
    | Some next => (Normal (), (onStore (λ _, next) w.1, w.2))
    | None => (Thrown, w)
    end.

(** [await fetch(...)]: the request goes out; a network failure rejects. *)
Definition fetch {A} (r : Request) (reply : Fetched A) : Act (bool * Json A) :=
  emit (Fetch r);;
  match reply with
  | NetworkError => throw
  | Response ok body => mret (ok, body)
  end.

(** [await res.json()] *)
Definition json {A} (body : Json A) : Act (option A) :=
  match body with
  | JsonInvalid => throw
  | JsonNull => mret None
  | JsonValue a => mret (Some a)
  end.

(** Reading a member of [data]: a [TypeError] when [data] is [null]. *)
Definition members {A} (data : option A) : Act A :=
  match data with
  | None => throw
  | Some a => mret a
  end.

Definition newChat (i : string) : Store.SessionItem :=
  {| Store.id := i; Store.title := "New chat"; Store.updated_at := None |}.

(** [{ ...s, ...next }]: [next] carries all three keys of a session item. *)
Definition mergeSession (s next : Store.SessionItem) : Store.SessionItem :=
  {| Store.id := Store.id next;
     Store.title := Store.title next;
     Store.updated_at := Store.updated_at next |}.

(** *** [createSession]

    [render] holds the values the function closes over: those of the render
    in which the handler was created. *)
Definition createSession (env : Env) (render : Component) : Act unit :=
  match user render with
  | None => mret ()
  | Some uid =>
      let sessions := Store.sessions (store render) in
      tryCatch
        (res ← fetch (PostSessionNew uid) (sessionNewReply env);
         (if negb res.1 then throw else mret ());;
         data ← json res.2;
         d ← members data;
         let next :=
           {| Store.id := api_id d;
              Store.title := default "New chat" (api_title d);
              Store.updated_at := api_updated_at d |} in
         (if negb (existsb (λ s, String.eqb (Store.id s) (Store.id next)) sessions)
          then onStoreDo (Store.setSessions (next :: sessions))
          else onStoreDo (Store.setSessions
                 ((λ s, if String.eqb (Store.id s) (Store.id next)
                        then mergeSession s next else s) <$> sessions)));;
         onStoreDo (Store.setActiveSession (Some (Store.id next)));;
         onStoreDo (Store.setMessages (Store.id next) []);;
         update (setInput "");;
         update (setMedia []))
        (let local := randomUUID env in
         onStoreDo (Store.setSessions (newChat local :: sessions));;
         onStoreDo (Store.setActiveSession (Some local));;
         onStoreDo (Store.setMessages local []);;
         update (setInput "");;
         update (setMedia []))
  end.

(** *** [sendMessage] *)

(** [m.kind === "pdf" ? "text" : m.kind] *)
Definition wireKind (k : Store.MediaKind) : string :=
  match k with
  | Store.image => "image"
  | Store.video => "video"
  | Store.pdf => "text"
  | Store.audio => "audio"
  end.

Definition wireMedia (m : Store.MediaAttachment) : string * string :=
  (wireKind (Store.kind m), Store.content m).

Definition userMessage (userText : string) (sentMedia : list Store.MediaAttachment)
  : Store.ChatMessage :=
  {| Store.role := Store.user;
     Store.text := userText;
     Store.media := if (0 <? List.length sentMedia)%nat then Some sentMedia else None |}.

Definition assistantMessage (t : string) : Store.ChatMessage :=
  {| Store.role := Store.assistant; Store.text := t; Store.media := None |}.

Definition sendMessage (env : Env) (render : Component) : Act unit :=
  match user render with
  | None => mret ()
  | Some uid =>
      sessionId ←
        (if negb (Js.truthyOpt (Store.activeSessionId (store render)))
         then createSession env render;;
              reads (λ c, Store.activeSessionId (store c))
         else mret (Store.activeSessionId (store render)));
      match sessionId with
      | None => mret ()
      | Some sid =>
          if negb (Js.truthy sid) then mret ()
          else if negb (Js.truthy (Js.trim (input render)))
                  && (List.length (media render) =? 0)%nat
          then mret ()
          else
            let userText :=
              if Js.truthy (Js.trim (input render)) then Js.trim (input render)
              else "[Media attached]" in
            let sentMedia := media render in
            onStoreTry (Store.appended sid (userMessage userText sentMedia));;
            update (setInput "");;
            update (setMedia []);;
            update (setLoading true);;
            tryFinally
              (tryCatch
                 (let language := Store.language (store render) in
                  res ← fetch
                          (PostChat uid sid userText
                             (if isAuto language then None else Some language)
                             (wireMedia <$> sentMedia))
                          (chatReply env);
                  (if negb res.1 then throw else mret ());;
                  data ← json res.2;
                  d ← members data;
                  onStoreTry (Store.appended sid
                               (assistantMessage (default "No response." (response d))));;
                  (if Js.truthyOpt (chat_title d)
                   then onStoreDo (Store.updateSessionTitle sid (default "" (chat_title d)))
                   else mret ());;
                  emit (SetTimeout (LoadSessions uid) 1200))
                 (onStoreTry (Store.appended sid
                               (assistantMessage "Network/server error. Try again."))))
              (update (setLoading false))
      end
  end.

(** A handler runs on the component of the render it was created in, with
    no effect issued yet. *)
Definition handle {A} (h : Component → Act A) (c : Component)
  : Completion A * World :=
  h c (c, []).

(** *** Voice capture *)

Definition startBackendRecordingCapture (env : Env) : Act unit :=
  emit GetUserMedia;;
  stream ← members (microphone env);
  update (setMediaStreamRef (Some stream));;
  update (setAudioChunksRef []);;
  (if recorderStarts env then mret () else throw);;
  update (setMediaRecorderRef (Some (RecorderOn stream)));;
  update (setRecording true);;
  update (setVoiceBusy false).

(** [rec.onerror], called with [event.error] *)
Definition rec_onerror (env : Env) (error : string) : Act unit :=
  if String.eqb error "network" then
    update (setVoiceError
      "Browser voice service unavailable. Falling back to in-app recording.");;
    update (setSpeechRef None);;
    update (setRecording false);;
    update (setVoiceBusy true);;
    tryCatch (startBackendRecordingCapture env)
      (update (setVoiceBusy false);;
       update (setVoiceError "Microphone access denied or unavailable."))
  else
    update (setVoiceError (String.append "Voice recognition error: " error)).

(** The text shown under the input bar: [{voiceError && <p>...</p>}]. *)
Definition shownVoiceError (c : Component) : option string :=
  if Js.truthy (voiceError c) then Some (voiceError c) else None.

(** The remote chat request fails: the promise rejects, the status is not
    2xx, or the body is not a JSON value with members. *)
Definition chatFailed (reply : Fetched ChatApiResponse) : bool :=
  match reply with
  | Response true (JsonValue _) => false
  | _ => true
  end.

(** The effects that are chat requests. *)
Definition isChatRequest (e : Effect) : bool :=
  match e with
  | Fetch (PostChat _ _ _ _ _) => true
  | _ => false
  end.

(** The effects that schedule a session-list refresh. *)
Definition isRefresh (e : Effect) : bool :=
  match e with
  | SetTimeout (LoadSessions _) _ => true
  | _ => false
  end.

(** The first step of [sendMessage], on its own: with an active session
    nothing happens, without one [createSession] runs.  The result is the
    component and the effects at the point where [sendMessage] reads the
    session id it will work with. *)
Definition sessionResolved (env : Env) (render : Component) : World :=
  if Js.truthyOpt (Store.activeSessionId (store render)) then (render, [])
  else (createSession env render (render, [])).2.

Definition sessionForSend (env : Env) (render : Component) : option string :=
  Store.activeSessionId (store (sessionResolved env render).1).

(** [input.trim() || "[Media attached]"] *)
Definition userTextOf (render : Component) : string :=
  if Js.truthy (Js.trim (input render)) then Js.trim (input render)
  else "[Media attached]".

(** What the reply of the chat endpoint does to the store. *)
Definition replyOnStore (env : Env) (sid : string)
  : Store.ChatState → Store.ChatState :=
  match chatReply env with
  | Response true (JsonValue d) =>
      λ st,
        let st' := Store.appendMessage sid
                     (assistantMessage (default "No response." (response d))) st in
        if Js.truthyOpt (chat_title d)
        then Store.updateSessionTitle sid (default "" (chat_title d)) st'
        else st'
  | _ => Store.appendMessage sid (assistantMessage "Network/server error. Try again.")
  end.

End Chat.

(** ** Concrete states used to exercise the properties *)

Module Demo.
Import Store.

Definition s1 : SessionItem :=
  {| id := "s1"; title := "New chat"; updated_at := None |}.

Definition s2 : SessionItem :=
  {| id := "s2"; title := "Cough"; updated_at := Some "2026-01-05T10:00:00Z" |}.

Definition fever : ChatMessage :=
  {| role := user; text := "fever since yesterday"; media := None |}.

Definition advice : ChatMessage :=
  {| role := assistant;
     text := "Stay hydrated and monitor temperature.";
     media := None |}.

(** A session list arrives, one session is opened and used, another one is
    deleted. *)
Definition browsing : list StoreOp :=
  [ OpSetSessions [s1; s2];
    OpSetActiveSession (Some "s1");
    OpAppendMessage "s1" fever;
    OpUpdateSessionTitle "s1" "Fever";
    OpRemoveSession "s2";
    OpSetSessions [s2; s1] ].

(** Logs are written for listed sessions only, and a refreshed list keeps
    the sessions that have a log. *)
Definition chatting : list StoreOp :=
  [ OpSetSessions [s1];
    OpSetMessages "s1" [];
    OpAppendMessage "s1" fever;
    OpAppendMessage "s1" advice;
    OpSetSessions [s2; s1];
    OpClearSessionMessages "s2";
    OpRemoveSession "s1" ].

(** A signed-in user at rest, with [typed] in the input box. *)
Definition atRest (st : ChatState) (typed : string) : Chat.Component :=
  {| Chat.store := st;
     Chat.user := Some "u1";
     Chat.input := typed;
     Chat.media := [];
     Chat.loading := false;
     Chat.recording := false;
     Chat.voiceBusy := false;
     Chat.voiceError := "";
     Chat.speechRef := None;
     Chat.mediaRecorderRef := None;
     Chat.mediaStreamRef := None;
     Chat.audioChunksRef := [] |}.

(** Session [s1] is open. *)
Definition opened : ChatState :=
  run [OpSetSessions [s1]; OpSetActiveSession (Some "s1")] initial.

Definition asking : Chat.Component := atRest opened " fever since yesterday ".

Definition silent : Chat.Component := atRest opened "   ".

(** No session is open and nothing is typed. *)
Definition fresh : Chat.Component := atRest initial "".

(** Live recognition is running. *)
Definition listening : Chat.Component :=
  Chat.setSpeechRef (Some (Chat.LiveRec (Code "en-IN")))
    (Chat.setRecording true (Chat.setVoiceBusy true (atRest opened ""))).

(** The backend answers the chat request; the microphone is available. *)
Definition online : Chat.Env :=
  {| Chat.sessionNewReply :=
       Chat.Response true
         (Chat.JsonValue {| Chat.api_id := "s3";
                            Chat.api_title := None;
                            Chat.api_updated_at := None |});
     Chat.chatReply :=
       Chat.Response true
         (Chat.JsonValue {| Chat.session_id := "s1";
                            Chat.chat_title := Some "Fever";
                            Chat.response :=
                              Some "Stay hydrated and monitor temperature." |});
     Chat.randomUUID := "7c9e6679-7425-40de-944b-e07fc1f90ae7";
     Chat.microphone := Some Chat.MicStream;
     Chat.recorderStarts := true |}.

(** Every request is rejected; the microphone is still available. *)
Definition offline : Chat.Env :=
  {| Chat.sessionNewReply := Chat.NetworkError;
     Chat.chatReply := Chat.NetworkError;
     Chat.randomUUID := "7c9e6679-7425-40de-944b-e07fc1f90ae7";
     Chat.microphone := Some Chat.MicStream;
     Chat.recorderStarts := true |}.

End Demo.

(** ** The rest of the component: session sync, view, files, voice

    The [GET]s of the session API, the [POST] to the transcription endpoint
    and the calls on the recognition and recorder objects are not recorded
    in the trace of effects; what they answer is a parameter of the
    handler.  The [DELETE] of a session is recorded. *)

Module Sync.
Import Chat.

(** [await fetch(...)], untraced: a network failure rejects. *)
Definition fetched {A} (reply : Fetched A) : Act (bool * Json A) :=
  match reply with
  | NetworkError => throw
  | Response ok body => mret (ok, body)
  end.

(** [truncate(value, limit = 20)], for a limit that is a natural number. *)
Definition truncate (value : string) (limit : nat) : string :=
  if (limit <? String.length value)%nat
  then String.append (substring 0 limit value) "..."
  else value.

(** The options of the language selector, [code] and [label]. *)
Definition LANGS : list (string * string) :=
  [ ("auto", "Auto"); ("en-IN", "English"); ("hi-IN", "Hindi");
    ("ta-IN", "Tamil"); ("bn-IN", "Bengali"); ("te-IN", "Telugu");
    ("mr-IN", "Marathi") ].

(** The record [loadSessions] builds from one row of the reply. *)
Definition normalized (s : SessionApi) : Store.SessionItem :=
  {| Store.id := api_id s;
     Store.title := default "New chat" (api_title s);
     Store.updated_at := api_updated_at s |}.

(** [loadSessions].  The body of the reply is the array of rows; a body that
    is not an array makes [data.map] throw, as [JsonNull] does. *)
Definition loadSessions (reply : Fetched (list SessionApi)) (uuid : string)
    (render : Component) : Act unit :=
  tryCatch
    (res ← fetched reply;
     (if negb res.1 then throw else mret ());;
     data ← json res.2;
     rows ← members data;
     onStoreDo (Store.setSessions (normalized <$> rows)))
    (if negb (Js.truthyOpt (Store.activeSessionId (store render)))
     then
       let local := uuid in
       onStoreDo (Store.setSessions [newChat local]);;
       onStoreDo (Store.setActiveSession None)
     else mret ()).

Record MessageApi := {
  msg_role : Store.Role;
  msg_text : string;
  msg_at : string;
}.

(** The detail of a session; [detail_messages] is [None] when the member is
    not an array, so that [data.messages.map] throws. *)
Record SessionDetailApi := {
  detail_id : string;
  detail_title : option string;
  detail_updated_at : option string;
  detail_messages : option (list MessageApi);
}.

(** [{ role: m.role, text: m.text }] *)
Definition shownMessage (m : MessageApi) : Store.ChatMessage :=
  {| Store.role := msg_role m; Store.text := msg_text m; Store.media := None |}.

(** [loadSessionMessages]; [uid] only goes into the URL. *)
Definition loadSessionMessages (reply : Fetched SessionDetailApi)
    (sessionId uid : string) : Act unit :=
  tryCatch
    (res ← fetched reply;
     (if negb res.1 then throw else mret ());;
     data ← json res.2;
     d ← members data;
     rows ← members (detail_messages d);
     onStoreDo (Store.setMessages sessionId (shownMessage <$> rows));;
     (if Js.truthyOpt (detail_title d)
      then onStoreDo (Store.updateSessionTitle sessionId (default "" (detail_title d)))
      else mret ()))
    (onStoreDo (Store.setMessages sessionId [])).

(** [deleteSession]: the reply is awaited and not looked at. *)
Definition deleteSession (reply : Fetched unit) (id : string) (render : Component)
  : Act unit :=
  match user render with
  | None => mret ()
  | Some uid =>
      tryFinally
        (tryCatch (fetch (Delete id uid) reply;; mret ()) (mret ()))
        (onStoreDo (Store.removeSession id))
  end.

(** The click on a session of the sidebar; closing the sidebar is outside
    the state modelled here. *)
Definition onSelectSession (reply : Fetched SessionDetailApi)
    (session : Store.SessionItem) (render : Component) : Act unit :=
  onStoreDo (Store.setActiveSession (Some (Store.id session)));;
  match user render with
  | Some uid => loadSessionMessages reply (Store.id session) uid
  | None => mret ()
  end.

(** A request that does not come back with a 2xx status and a JSON value. *)
Definition failed {A} (reply : Fetched A) : bool :=
  match reply with
  | Response true (JsonValue _) => false
  | _ => true
  end.

(** The two properties the store leaves to its callers, together. *)
Definition consistent (state : Store.ChatState) : Prop :=
  Store.active_valid state ∧ Store.keys_valid state.

(** The session list after a merge of [next]: [next] in front when its id
    is new, in place of the sessions with its id otherwise. *)
Definition mergedInto (next : Store.SessionItem) (ss : list Store.SessionItem)
  : list Store.SessionItem :=
  if negb (existsb (λ s, String.eqb (Store.id s) (Store.id next)) ss)
  then next :: ss
  else (λ s, if String.eqb (Store.id s) (Store.id next)
             then mergeSession s next else s) <$> ss.

(** The session [createSession] opens: the one of the reply, or a local one
    under a random id when the request fails. *)
Definition opening (env : Env) : Store.SessionItem :=
  match sessionNewReply env with
  | Response true (JsonValue d) => normalized d
  | _ => newChat (randomUUID env)
  end.

(** The [messages] memo: the list shown, or the name of the member of
    [Object.prototype] that the read of [messagesBySession] has found. *)
Definition messages (c : Component) : list Store.ChatMessage + string :=
  match Store.activeSessionId (store c) with
  | Some i =>
      if Js.truthy i
      then
        match JsObject.get (Store.messagesBySession (store c)) i with
        | JsObject.Own ms => inl ms
        | JsObject.Inherited member => inr member
        | JsObject.Undefined => inl []
        end
      else inl []
  | None => inl []
  end.

(** The members of [Object.prototype] whose [length] is 0: the functions
    without parameter.  The other functions have a positive [length], and
    [Object.prototype] itself has none. *)
Definition lengthZero (member : string) : bool :=
  existsb (String.eqb member) ["toString"; "valueOf"; "toLocaleString"].

(** [messages.length === 0] *)
Definition isLanding (c : Component) : bool :=
  match messages c with
  | inl ms => (List.length ms =? 0)%nat
  | inr member => lengthZero member
  end.

End Sync.

(** *** Attachments *)

Module Files.
Import Chat.

(** A picked file: its MIME type, its name, and what reading it as a data
    URL gives ([None] when the reader fails). *)
Record File := {
  file_type : string;
  file_name : string;
  file_read : option string;
}.

(** The part of [s] before its first comma. *)
Fixpoint beforeComma (s : string) : string :=
  match s with
  | EmptyString => EmptyString
  | String c rest =>
      if Ascii.eqb c "," then EmptyString else String c (beforeComma rest)
  end.

(** The part of [s] after its first comma, if it has one. *)
Fixpoint afterComma (s : string) : option string :=
  match s with
  | EmptyString => None
  | String c rest => if Ascii.eqb c "," then Some rest else afterComma rest
  end.

(** [out.split(",")[1] ?? ""] *)
Definition secondField (out : string) : string :=
  match afterComma out with
  | Some rest => beforeComma rest
  | None => ""
  end.

(** [fileToBase64] and [blobToBase64]: the promise rejects when the reader
    fails. *)
Definition fileToBase64 (read : option string) : Act string :=
  match read with
  | Some out => mret (secondField out)
  | None => throw
  end.

Definition kindOf (type : string) : Store.MediaKind :=
  if String.prefix "image/" type then Store.image
  else if String.prefix "video/" type then Store.video
  else Store.pdf.

Definition convert (file : File) : Act Store.MediaAttachment :=
  base64 ← fileToBase64 (file_read file);
  mret {| Store.kind := kindOf (file_type file);
          Store.content := base64;
          Store.name := Some (file_name file) |}.

(** [Promise.all(files.map(...))]: rejects when one of them does. *)
Fixpoint all {A B} (f : A → Act B) (xs : list A) : Act (list B) :=
  match xs with
  | [] => mret []
  | x :: rest => y ← f x; ys ← all f rest; mret (y :: ys)
  end.

(** [onPickFile], given the files of the input element. *)
Definition onPickFile (files : list File) : Act unit :=
  if (List.length files =? 0)%nat then mret ()
  else
    converted ← all convert files;
    update (λ c, setMedia (media c ++ converted) c).

(** [s] has no comma. *)
Definition commaFree (s : string) : Prop := afterComma s = None.

(** The attachment made of a file whose read gave [out]. *)
Definition attachmentOf (file : File) : Store.MediaAttachment :=
  {| Store.kind := kindOf (file_type file);
     Store.content := secondField (default "" (file_read file));
     Store.name := Some (file_name file) |}.

End Files.

(** *** Voice capture, whole *)

Module Voice.
Import Chat.

(** What the browser offers for live recognition: no constructor, a
    constructor that throws, a session whose [start()] throws, or a session
    that starts. *)
Inductive Speech :=
| NoSpeechCtor
| SpeechCtorThrows
| SpeechStartThrows
| SpeechStarts.

Definition startVoiceRecording (env : Env) (speech : Speech) (render : Component)
  : Act unit :=
  if voiceBusy render then mret ()
  else
    update (setVoiceError "");;
    started ←
      match speech with
      | NoSpeechCtor => mret false
      | _ =>
          tryCatch
            ((match speech with SpeechCtorThrows => throw | _ => mret () end);;
             let language := Store.language (store render) in
             let rec :=
               LiveRec (if isAuto language then Store.Code "en-IN" else language) in
             update (setSpeechRef (Some rec));;
             update (setRecording true);;
             update (setVoiceBusy true);;
             (match speech with SpeechStartThrows => throw | _ => mret () end);;
             mret true)
            (mret false)
      end;
    if started : bool then mret ()
    else
      tryCatch (startBackendRecordingCapture env)
        (update (setVoiceError "Microphone access denied or unavailable.")).

(** [prev ? `${prev} ${t}` : t] *)
Definition joined (prev t : string) : string :=
  if Js.truthy prev then String.append prev (String.append " " t) else t.

(** [rec.onresult]; [heard] is [event.results?.[0]?.[0]?.transcript]. *)
Definition rec_onresult (heard : option string) : Act unit :=
  let transcript := default "" (Js.trim <$> heard) in
  if Js.truthy transcript
  then update (λ c, setInput (joined (input c) transcript) c)
  else mret ().

(** [rec.onend] *)
Definition rec_onend : Act unit :=
  update (setRecording false);;
  update (setVoiceBusy false);;
  update (setSpeechRef None).

Record SttBody := {
  stt_text : option string;
  stt_detected_lang : option string;
  stt_detail : option string;
}.

(** What comes back from encoding the recording and posting it: something
    throws before the reply can be looked at (a failed read, a rejected
    fetch, a body that is not JSON or is [null]), with the message of the
    error when the thrown value is an [Error]; or the reply is there. *)
Inductive Stt :=
| SttThrows (message : option string)
| SttReplies (ok : bool) (data : SttBody).

(** The [try] block of [stopVoiceRecording]; [inr] is what it throws, as
    the [catch] clause reads it: the message of an [Error], or nothing. *)
Definition transcribe (stt : Stt) (render : Component)
  : Act (unit + option string) :=
  match stt with
  | SttThrows message => mret (inr message)
  | SttReplies ok data =>
      if negb ok
      then mret (inr (Some (if Js.truthyOpt (stt_detail data)
                            then default "" (stt_detail data)
                            else "Voice transcription failed.")))
      else
        (if Js.truthyOpt (stt_text data)
         then update (λ c, setInput (joined (input c) (default "" (stt_text data))) c)
         else mret ());;
        (if isAuto (Store.language (store render))
            && Js.truthyOpt (stt_detected_lang data)
         then onStoreDo (Store.setLanguage
                (normalizeUiLanguage (default "" (stt_detected_lang data))))
         else mret ());;
        mret (inl ())
  end.

(** [stopVoiceRecording].  A recorder held in [mediaRecorderRef] has been
    started, so that stopping it succeeds. *)
Definition stopVoiceRecording (stt : Stt) (render : Component) : Act unit :=
  live ← reads speechRef;
  match live with
  | Some _ => mret ()
  | None =>
      recorder ← reads mediaRecorderRef;
      match recorder, user render with
      | Some _, Some _ =>
          update (setVoiceBusy true);;
          update (setRecording false);;
          update (setMediaStreamRef None);;
          update (setMediaRecorderRef None);;
          tryFinally
            (r ← transcribe stt render;
             match r with
             | inl _ => mret ()
             | inr err =>
                 update (setVoiceError (default "Voice transcription failed." err))
             end)
            (update (setVoiceBusy false);;
             update (setAudioChunksRef []))
      | _, _ => mret ()
      end
  end.

(** The three states of voice capture, read off the flags and refs. *)
Definition idle (c : Component) : Prop :=
  speechRef c = None ∧ mediaRecorderRef c = None
  ∧ recording c = false ∧ voiceBusy c = false.

Definition live (c : Component) : Prop :=
  is_Some (speechRef c) ∧ mediaRecorderRef c = None
  ∧ recording c = true ∧ voiceBusy c = true.

Definition raw (c : Component) : Prop :=
  speechRef c = None ∧ is_Some (mediaRecorderRef c)
  ∧ recording c = true ∧ voiceBusy c = false.

End Voice.

(** ** More concrete states *)

Module Samples.
Import Store.

Definition scan : MediaAttachment :=
  {| kind := pdf; content := "JVBERi0xLjQ="; name := Some "report.pdf" |}.

Definition xray : MediaAttachment :=
  {| kind := image; content := "iVBORw0KGgo="; name := Some "xray.png" |}.

(** Two attachments are pending and nothing is typed. *)
Definition attaching : Chat.Component :=
  Chat.setMedia [xray; scan] (Demo.atRest Demo.opened "  ").

(** Nobody is signed in. *)
Definition signedOut : Chat.Component :=
  {| Chat.store := Demo.opened;
     Chat.user := None;
     Chat.input := "hello";
     Chat.media := [xray];
     Chat.loading := false;
     Chat.recording := false;
     Chat.voiceBusy := false;
     Chat.voiceError := "";
     Chat.speechRef := None;
     Chat.mediaRecorderRef := None;
     Chat.mediaStreamRef := None;
     Chat.audioChunksRef := [] |}.

Definition picked : list Files.File :=
  [ {| Files.file_type := "image/png";
       Files.file_name := "xray.png";
       Files.file_read := Some "data:image/png;base64,iVBORw0KGgo=" |};
    {| Files.file_type := "audio/mpeg";
       Files.file_name := "cough.mp3";
       Files.file_read := Some "data:audio/mpeg;base64,SUQzBAA=" |} ].

(** A session whose id is the name of a member of [Object.prototype] is
    listed and has just been made the active one; no log is stored for it
    yet. *)
Definition s0 : SessionItem :=
  {| id := "constructor"; title := "New chat"; updated_at := None |}.

Definition unlogged : ChatState :=
  run [OpSetSessions [s0]; OpSetActiveSession (Some "constructor")] initial.

Definition hapless : Chat.Component := Demo.atRest unlogged "fever since yesterday".

(** The server returns a session under an id that is already listed. *)
Definition relisting : Chat.Env :=
  {| Chat.sessionNewReply :=
       Chat.Response true
         (Chat.JsonValue {| Chat.api_id := "s1";
                            Chat.api_title := Some "Fever";
                            Chat.api_updated_at := Some "2026-02-01T08:00:00Z" |});
     Chat.chatReply := Chat.NetworkError;
     Chat.randomUUID := "7c9e6679-7425-40de-944b-e07fc1f90ae7";
     Chat.microphone := None;
     Chat.recorderStarts := false |}.

(** The transcription endpoint answers with a text in Hindi. *)
Definition heardHindi : Voice.Stt :=
  Voice.SttReplies true
    {| Voice.stt_text := Some "mujhe bukhar hai";
       Voice.stt_detected_lang := Some "hi";
       Voice.stt_detail := None |}.

End Samples.

(** * Properties of the store *)

Module StoreSpec.
Import Store.

Lemma hasSession_filter (ss : list SessionItem) (i j : string) :
  hasSession (filter (λ s, id s ≠ i) ss) j ↔ hasSession ss j ∧ j ≠ i.
Proof.
  unfold hasSession. split.
  - intros (s & Hin & Hid). apply list_elem_of_filter in Hin as [Hne Hin].
    subst j. eauto.
  - intros [(s & Hin & Hid) Hne]. exists s. split; [|done].
    apply list_elem_of_filter. by subst j.
Qed.

Lemma retitle_id (i t : string) (s : SessionItem) : id (retitle i t s) = id s.
Proof. unfold retitle. by case_decide. Qed.

Lemma hasSession_retitle (ss : list SessionItem) (i t j : string) :
  hasSession (retitle i t <$> ss) j ↔ hasSession ss j.
Proof.
  unfold hasSession. split.
  - intros (s & Hin & Hid). apply list_elem_of_fmap in Hin as (s0 & -> & Hin).
    rewrite retitle_id in Hid. eauto.
  - intros (s & Hin & Hid). exists (retitle i t s).
    rewrite retitle_id. split; [|done]. by apply list_elem_of_fmap_2.
Qed.

(** C1. [removeSession i] removes every session with id [i] from the
    session set and nothing else, deletes the entry of [i] from
    [messagesBySession] and no other entry, and leaves [activeSessionId]
    unchanged when it was not [i] and sets it to null when it was. *)
Theorem removeSession_spec (i : string) (state : ChatState) :
  let state' := removeSession i state in
  ¬ hasSession (sessions state') i
  ∧ sessions state' = filter (λ s, id s ≠ i) (sessions state)
  ∧ (∀ j, j ≠ i → (hasSession (sessions state') j ↔ hasSession (sessions state) j))
  ∧ messagesBySession state' !! i = None
  ∧ (∀ j, j ≠ i → messagesBySession state' !! j = messagesBySession state !! j)
  ∧ (activeSessionId state ≠ Some i → activeSessionId state' = activeSessionId state)
  ∧ (activeSessionId state = Some i → activeSessionId state' = None).
Proof.
  cbn. split_and!.
  - rewrite hasSession_filter. tauto.
  - done.
  - intros j Hj. rewrite hasSession_filter. tauto.
  - apply lookup_delete_eq.
  - intros j Hj. by apply lookup_delete_ne.
  - intros Hne. by case_decide.
  - intros Heq. by case_decide.
Qed.

(** [appendMessage] either finds a list to extend, or throws and leaves the
    state as it is. *)
Lemma appendMessage_cases (i : string) (m : ChatMessage) (state : ChatState) :
  (∃ ms, messagesOf state i = Some ms
         ∧ appended i m state
           = Some (withMessages (<[i := ms ++ [m]]> (messagesBySession state)) state)
         ∧ appendMessage i m state
           = withMessages (<[i := ms ++ [m]]> (messagesBySession state)) state)
  ∨ (messagesOf state i = None ∧ appended i m state = None
     ∧ appendMessage i m state = state).
Proof.
  unfold appendMessage, appended.
  destruct (messagesOf state i) as [ms|]; [left; by exists ms|by right].
Qed.

Lemma appended_ok (i : string) (m : ChatMessage) (state : ChatState)
    (old : list ChatMessage) :
  messagesOf state i = Some old →
  appended i m state = Some (appendMessage i m state)
  ∧ messagesOf (appendMessage i m state) i = Some (old ++ [m])
  ∧ messagesBySession (appendMessage i m state) !! i = Some (old ++ [m]).
Proof.
  intros Hold. unfold appendMessage, appended. rewrite Hold. cbn.
  split_and!; [done| |apply lookup_insert_eq].
  unfold messagesOf, JsObject.get. cbn. by rewrite lookup_insert_eq.
Qed.

Lemma appendMessage_eq (i : string) (m : ChatMessage) (state : ChatState)
    (old : list ChatMessage) :
  messagesOf state i = Some old →
  appendMessage i m state
  = withMessages (<[i := old ++ [m]]> (messagesBySession state)) state.
Proof. intros Hold. unfold appendMessage, appended. by rewrite Hold. Qed.

Lemma messagesOf_other (i j : string) (ms : list ChatMessage) (state : ChatState) :
  i ≠ j →
  messagesOf (withMessages (<[j := ms]> (messagesBySession state)) state) i
  = messagesOf state i.
Proof.
  intros Hne. unfold messagesOf, JsObject.get. cbn.
  by rewrite lookup_insert_ne.
Qed.

(** A log of its own is read as it is. *)
Lemma messagesOf_own (i : string) (state : ChatState) (ms : list ChatMessage) :
  messagesBySession state !! i = Some ms → messagesOf state i = Some ms.
Proof. intros H. unfold messagesOf, JsObject.get. by rewrite H. Qed.

(** Only the name of an inherited member without a log of its own cannot
    be appended to. *)
Lemma messagesOf_None (i : string) (state : ChatState) :
  messagesOf state i = None
  ↔ messagesBySession state !! i = None ∧ JsObject.inheritedMember i = true.
Proof.
  unfold messagesOf, JsObject.get.
  destruct (messagesBySession state !! i); [by split; [|intros []]|].
  destruct (JsObject.inheritedMember i); by split; [|intros []].
Qed.

(** C10. [setMessages i ms], [appendMessage i m] and
    [clearSessionMessages i] leave the session set, [activeSessionId], the
    language and the message log of every other session as they were. *)
Theorem message_ops_frame (i : string) (ms : list ChatMessage) (m : ChatMessage)
    (state : ChatState) :
  unchanged_outside i state (setMessages i ms state)
  ∧ unchanged_outside i state (appendMessage i m state)
  ∧ unchanged_outside i state (clearSessionMessages i state).
Proof.
  unfold unchanged_outside. split_and!; try done.
  - intros j Hj. by apply lookup_insert_ne.
  - by destruct (appendMessage_cases i m state) as [(old & _ & _ & ->)|(_ & _ & ->)].
  - by destruct (appendMessage_cases i m state) as [(old & _ & _ & ->)|(_ & _ & ->)].
  - by destruct (appendMessage_cases i m state) as [(old & _ & _ & ->)|(_ & _ & ->)].
  - intros j Hj.
    destruct (appendMessage_cases i m state) as [(old & _ & _ & ->)|(_ & _ & ->)];
      [by apply lookup_insert_ne|done].
  - intros j Hj. by apply lookup_insert_ne.
Qed.

(** The entry the three operations write. *)
Lemma message_ops_entry (i : string) (ms old : list ChatMessage) (m : ChatMessage)
    (state : ChatState) :
  messagesBySession (setMessages i ms state) !! i = Some ms
  ∧ (messagesOf state i = Some old →
     messagesBySession (appendMessage i m state) !! i = Some (old ++ [m]))
  ∧ messagesBySession (clearSessionMessages i state) !! i = Some [].
Proof.
  split_and!; [apply lookup_insert_eq| |apply lookup_insert_eq].
  intros Hold.
  destruct (appendMessage_cases i m state) as [(ms' & H & _ & ->)|(H & _)];
    [|congruence].
  rewrite Hold in H. injection H as <-. apply lookup_insert_eq.
Qed.

(** *** [activeSessionId] names a session *)

Lemma active_valid_step (op : StoreOp) (state : ChatState) :
  active_valid state → keeps_active state op → active_valid (apply_op op state).
Proof.
  unfold active_valid. intros Hinv Hok.
  destruct op as [lang|ss|a|j ms|j m|j|j|j t];
    try (destruct (appendMessage_cases j m state)
           as [(old & _ & _ & Hnext)|(_ & _ & Hnext)];
         cbn [apply_op]; rewrite Hnext);
    cbn in *; try done.
  - intros i Hi. by rewrite Hi in Hok.
  - intros i ->. done.
  - intros i Hi. case_decide as Hact; [done|].
    apply hasSession_filter. split; [by apply Hinv|congruence].
  - intros i Hi. apply hasSession_retitle. by apply Hinv.
Qed.

Lemma active_valid_run (ops : list StoreOp) (state : ChatState) :
  active_valid state → respects keeps_active ops state →
  active_valid (run ops state).
Proof.
  revert state. induction ops as [|op rest IH]; intros state Hinv Hok; [done|].
  destruct Hok as [Hop Hrest]. cbn. apply IH; [|done].
  by apply active_valid_step.
Qed.

Lemma active_valid_initial : active_valid initial.
Proof. intros i Hi. discriminate Hi. Qed.

(** C6, as stated, fails: the store accepts any id as the active one. *)
Lemma active_valid_counterexample :
  ¬ active_valid (run [OpSetActiveSession (Some "s1")] initial).
Proof.
  intros H. destruct (H "s1" eq_refl) as (s & Hin & _).
  cbn in Hin. by apply elem_of_nil in Hin.
Qed.

(** C6, amended. In every state reached from the initial one by calls that
    give [setActiveSession] only null or the id of a session of the set, and
    [setSessions] only lists that contain the active session, a non-null
    [activeSessionId] names a session of the set; and removing the active
    session sets [activeSessionId] to null and keeps that property. *)
Theorem active_valid_reachable (ops : list StoreOp)
    (Hok : respects keeps_active ops initial) :
  let state := run ops initial in
  active_valid state
  ∧ ∀ i, activeSessionId state = Some i →
      activeSessionId (removeSession i state) = None
      ∧ active_valid (removeSession i state).
Proof.
  cbn. assert (Hinv : active_valid (run ops initial))
    by (apply active_valid_run; [apply active_valid_initial | done]).
  split; [done|]. intros i Hi.
  split.
  - cbn. by case_decide.
  - by apply (active_valid_step (OpRemoveSession i)).
Qed.

Lemma active_valid_reachable_witness :
  let state := run Demo.browsing initial in
  active_valid state
  ∧ ∀ i, activeSessionId state = Some i →
      activeSessionId (removeSession i state) = None
      ∧ active_valid (removeSession i state).
Proof.
  apply (active_valid_reachable Demo.browsing).
  cbn. split_and!; try exact I; by apply (bool_decide_unpack _); vm_compute.
Defined.

(** *** The keys of [messagesBySession] are sessions *)

Lemma keys_valid_step (op : StoreOp) (state : ChatState) :
  keys_valid state → keeps_keys state op → keys_valid (apply_op op state).
Proof.
  unfold keys_valid. intros Hinv Hok.
  destruct op as [lang|ss|a|j ms|j m|j|j|j t];
    try (destruct (appendMessage_cases j m state)
           as [(old & _ & _ & Hnext)|(_ & _ & Hnext)];
         cbn [apply_op]; rewrite Hnext);
    cbn in *; try done.
  - intros k [ms Hk]. by apply (Hok k ms).
  - intros k Hk. destruct (decide (j = k)) as [->|Hne]; [done|].
    rewrite lookup_insert_ne in Hk by done. by apply Hinv.
  - intros k Hk. destruct (decide (j = k)) as [->|Hne]; [done|].
    rewrite lookup_insert_ne in Hk by done. by apply Hinv.
  - intros k Hk. destruct (decide (j = k)) as [->|Hne]; [done|].
    rewrite lookup_insert_ne in Hk by done. by apply Hinv.
  - intros k Hk. destruct (decide (j = k)) as [->|Hne].
    + rewrite lookup_delete_eq in Hk. by destruct Hk.
    + rewrite lookup_delete_ne in Hk by done.
      apply hasSession_filter. split; [by apply Hinv|done].
  - intros k Hk. apply hasSession_retitle. by apply Hinv.
Qed.

Lemma keys_valid_run (ops : list StoreOp) (state : ChatState) :
  keys_valid state → respects keeps_keys ops state → keys_valid (run ops state).
Proof.
  revert state. induction ops as [|op rest IH]; intros state Hinv Hok; [done|].
  destruct Hok as [Hop Hrest]. cbn. apply IH; [|done].
  by apply keys_valid_step.
Qed.

Lemma keys_valid_initial : keys_valid initial.
Proof. intros k [ms Hk]. cbn in Hk. by rewrite lookup_empty in Hk. Qed.

(** C7, as stated, fails: a message log can be written for an id that no
    session has. *)
Lemma keys_valid_counterexample :
  ¬ keys_valid (run [OpSetMessages "s1" []] initial).
Proof.
  intros H. destruct (H "s1") as (s & Hin & _).
  - cbn. rewrite lookup_insert_eq. by eexists.
  - cbn in Hin. by apply elem_of_nil in Hin.
Qed.

(** C7, amended. In every state reached from the initial one by calls that
    write message logs only for sessions of the set, and give [setSessions]
    only lists that still have a session for every key, each key of
    [messagesBySession] is the id of a session of the set; [removeSession]
    keeps that, taking the key and the session away in one transition. *)
Theorem keys_valid_reachable (ops : list StoreOp)
    (Hok : respects keeps_keys ops initial) :
  let state := run ops initial in
  keys_valid state
  ∧ ∀ i, keys_valid (apply_op (OpRemoveSession i) state)
      ∧ messagesBySession (apply_op (OpRemoveSession i) state) !! i = None
      ∧ ¬ hasSession (sessions (apply_op (OpRemoveSession i) state)) i.
Proof.
  cbn. assert (Hinv : keys_valid (run ops initial))
    by (apply keys_valid_run; [apply keys_valid_initial | done]).
  split; [done|]. intros i. repeat split.
  - by apply (keys_valid_step (OpRemoveSession i)).
  - apply lookup_delete_eq.
  - rewrite hasSession_filter. tauto.
Qed.

Lemma keys_valid_reachable_witness :
  let state := run Demo.chatting initial in
  keys_valid state
  ∧ ∀ i, keys_valid (apply_op (OpRemoveSession i) state)
      ∧ messagesBySession (apply_op (OpRemoveSession i) state) !! i = None
      ∧ ¬ hasSession (sessions (apply_op (OpRemoveSession i) state)) i.
Proof.
  apply (keys_valid_reachable Demo.chatting).
  cbn. split_and!; try exact I; by apply (bool_decide_unpack _); vm_compute.
Defined.

End StoreSpec.

(** * Properties of the component *)

Module JsFacts.

Lemma truthy_true (s : string) : s ≠ "" → Js.truthy s = true.
Proof.
  intros Hs. unfold Js.truthy. destruct (String.eqb_spec s ""); done.
Qed.

Lemma truthy_false (s : string) : Js.truthy s = false ↔ s = "".
Proof.
  unfold Js.truthy. destruct (String.eqb_spec s ""); split; done.
Qed.

Lemma truthy_empty : Js.truthy "" = false.
Proof. done. Qed.

End JsFacts.

Module ChatSpec.
Import Chat.

(** *** [normalizeUiLanguage] *)

Lemma languageMap_table (k full : string) :
  languageMap !! k = Some full ↔ (k, full) ∈ languageTable.
Proof.
  unfold languageMap. split.
  - apply elem_of_list_to_map_2.
  - apply elem_of_list_to_map_1.
    by apply (bool_decide_unpack _); vm_compute.
Qed.

(** Every entry maps a bare or lower-cased code to the code of the same
    language qualified by the region [IN]. *)
Lemma languageTable_region (k full : string) :
  (k, full) ∈ languageTable →
  full = String.append (substring 0 2 k) "-IN" ∧ k ≠ "" ∧ k ≠ "auto".
Proof.
  unfold languageTable. intros H.
  repeat (apply elem_of_cons in H as [H|H]; [by simplify_eq|]).
  by apply elem_of_nil in H.
Qed.

Lemma lowerChar_idempotent (a : ascii) :
  Js.lowerChar (Js.lowerChar a) = Js.lowerChar a.
Proof. destruct a as [[] [] [] [] [] [] [] []]; by vm_compute. Qed.

Lemma toLowerCase_idempotent (s : string) :
  Js.toLowerCase (Js.toLowerCase s) = Js.toLowerCase s.
Proof.
  induction s as [|a s IH]; simpl; [done|].
  by rewrite lowerChar_idempotent, IH.
Qed.

(** Of the members of [Object.prototype] only two have a name without
    upper-case letter, so that a lower-cased code can be that name. *)
Lemma inheritedMember_lowered (s : string) :
  JsObject.inheritedMember (Js.toLowerCase s) = true →
  Js.toLowerCase s = "constructor" ∨ Js.toLowerCase s = "__proto__".
Proof.
  intros H. pose proof (toLowerCase_idempotent s) as Hidem.
  unfold JsObject.inheritedMember in H. apply existsb_exists in H as (k & Hk & Heq).
  apply String.eqb_eq in Heq. rewrite Heq in *. clear Heq.
  unfold JsObject.objectPrototypeMembers in Hk. cbn in Hk.
  repeat (destruct Hk as [<-|Hk];
    [first [by left | by right | by vm_compute in Hidem]|]).
  done.
Qed.

Example normalizeUiLanguage_samples :
  normalizeUiLanguage "hi" = Store.Code "hi-IN"
  ∧ normalizeUiLanguage " EN-in " = Store.Code "en-IN"
  ∧ normalizeUiLanguage "" = Store.Code "en-IN"
  ∧ normalizeUiLanguage "   " = Store.Code "en-IN"
  ∧ normalizeUiLanguage "Auto" = Store.Code "auto"
  ∧ normalizeUiLanguage " FR " = Store.Code " FR "
  ∧ normalizeUiLanguage "toString" = Store.Code "toString"
  ∧ normalizeUiLanguage "constructor" = Store.Member "constructor"
  ∧ normalizeUiLanguage " __PROTO__ " = Store.Member "__proto__".
Proof. split_and!; by vm_compute. Qed.

(** C9, as stated, fails: a code without table entry is not replaced by the
    default. *)
Lemma normalizeUiLanguage_counterexample :
  "fr" ≠ "" ∧ "fr" ≠ "auto" ∧ languageMap !! "fr" = None
  ∧ normalizeUiLanguage "fr" ≠ Store.Code "en-IN".
Proof. split_and!; by vm_compute. Qed.

(** C9, amended. With [lowered] the trimmed, lower-cased code:
    [normalizeUiLanguage] returns the default [en-IN] when [lowered] is
    empty; the table's region-qualified code when [lowered] has an entry;
    and the code it was given, unchanged, when [lowered] is not empty, is
    not [auto], has no entry and is not the name of a member that the table
    inherits as an object ([constructor], [__proto__]). *)
Theorem normalizeUiLanguage_spec (code : string) :
  let lowered := Js.toLowerCase (Js.trim code) in
  (lowered = "" → normalizeUiLanguage code = Store.Code "en-IN")
  ∧ (∀ full, languageMap !! lowered = Some full →
       normalizeUiLanguage code = Store.Code full
       ∧ full = String.append (substring 0 2 lowered) "-IN")
  ∧ (lowered ≠ "" → lowered ≠ "auto" → languageMap !! lowered = None →
     lowered ≠ "constructor" → lowered ≠ "__proto__" →
       normalizeUiLanguage code = Store.Code code).
Proof.
  cbn zeta. unfold normalizeUiLanguage, JsObject.get.
  split_and!.
  - intros ->. done.
  - intros full Hfull.
    destruct (languageTable_region _ _ (proj1 (languageMap_table _ _) Hfull))
      as (Hregion & Hne & Hauto).
    rewrite JsFacts.truthy_true by done. cbn [negb].
    destruct (String.eqb_spec (Js.toLowerCase (Js.trim code)) "auto"); [done|].
    by rewrite Hfull.
  - intros Hne Hauto Hnone Hctor Hproto.
    rewrite JsFacts.truthy_true by done. cbn [negb].
    destruct (String.eqb_spec (Js.toLowerCase (Js.trim code)) "auto"); [done|].
    rewrite Hnone.
    destruct (JsObject.inheritedMember _) eqn:Hinh; [|done].
    by destruct (inheritedMember_lowered _ Hinh).
Qed.

(** *** Running handlers *)

Ltac run_act :=
  cbv beta iota zeta delta
    [handle mbind mret Act_bind Act_ret throw emit reads update tryCatch
     tryFinally fetch json members onStoreDo onStoreTry fst snd].

(** [createSession] never throws: it issues one request and leaves a
    session active whose message log is empty. *)
Lemma createSession_outcome (env : Env) (render : Component) (uid : string)
    (w : World) :
  user render = Some uid →
  ∃ c1 i,
    createSession env render w = (Normal (), (c1, w.2 ++ [Fetch (PostSessionNew uid)]))
    ∧ Store.activeSessionId (store c1) = Some i
    ∧ Store.messagesBySession (store c1) !! i = Some [].
Proof.
  intros Huser. unfold createSession. rewrite Huser.
  destruct w as [c0 eff].
  destruct (sessionNewReply env) as [|[] [| |d]]; run_act;
    try (eexists _, _; split_and!; [reflexivity|reflexivity|apply lookup_insert_eq]).
  destruct (existsb _ _); run_act;
    eexists _, _; (split_and!; [reflexivity|reflexivity|apply lookup_insert_eq]).
Qed.

Lemma input_or_media (c : Component) :
  Js.trim (input c) ≠ "" ∨ media c ≠ [] →
  negb (Js.truthy (Js.trim (input c))) && (List.length (media c) =? 0)%nat = false.
Proof.
  intros [Hin|Hmedia].
  - by rewrite JsFacts.truthy_true.
  - destruct (media c); [done|]. by rewrite andb_false_r.
Qed.

Lemma isAuto_true (language : Store.Lang) :
  isAuto language = true → language = Store.Code "auto".
Proof.
  destruct language as [code|member]; [|done]. cbn.
  by intros ->%String.eqb_eq.
Qed.

Lemma onStoreTry_ok (i : string) (m : Store.ChatMessage) (w : World)
    (old : list Store.ChatMessage) :
  Store.messagesOf (store w.1) i = Some old →
  onStoreTry (Store.appended i m) w
  = (Normal (), (onStore (Store.appendMessage i m) w.1, w.2)).
Proof.
  intros Hold. unfold onStoreTry.
  by rewrite (proj1 (StoreSpec.appended_ok i m _ old Hold)).
Qed.

Lemma onStoreTry_throws (i : string) (m : Store.ChatMessage) (w : World) :
  Store.messagesOf (store w.1) i = None →
  onStoreTry (Store.appended i m) w = (Thrown, w).
Proof. intros Hnone. unfold onStoreTry, Store.appended. by rewrite Hnone. Qed.

(** The whole of [sendMessage] once its guards are passed and the user
    message has been appended. *)
Lemma sendMessage_outcome (env : Env) (c : Component) (uid sid : string)
    (old : list Store.ChatMessage) :
  user c = Some uid →
  sessionForSend env c = Some sid →
  sid ≠ "" →
  Js.trim (input c) ≠ "" ∨ media c ≠ [] →
  Store.messagesOf (store (sessionResolved env c).1) sid = Some old →
  let w1 := sessionResolved env c in
  let language := Store.language (store c) in
  handle (sendMessage env) c =
    (Normal (),
     (setLoading false
        (onStore (replyOnStore env sid)
           (setLoading true (setMedia [] (setInput ""
              (onStore (Store.appendMessage sid (userMessage (userTextOf c) (media c)))
                 w1.1))))),
      w1.2
      ++ Fetch (PostChat uid sid (userTextOf c)
                  (if isAuto language then None else Some language)
                  (wireMedia <$> media c))
         :: (if chatFailed (chatReply env) then []
             else [SetTimeout (LoadSessions uid) 1200]))).
Proof.
  intros Huser Hsid Hne Hsend Hold. cbn zeta.
  pose proof (input_or_media c Hsend) as Hguard.
  set (mu := userMessage (userTextOf c) (media c)).
  destruct (StoreSpec.appended_ok sid mu _ old Hold) as (H1 & Hold1 & _).
  assert (H2 : ∀ m, Store.appended sid m
                      (Store.appendMessage sid mu (store (sessionResolved env c).1))
                    = Some (Store.appendMessage sid m
                              (Store.appendMessage sid mu
                                 (store (sessionResolved env c).1))))
    by (intros m; apply (StoreSpec.appended_ok sid m _ _ Hold1)).
  unfold sessionForSend, sessionResolved in *.
  unfold handle, sendMessage, replyOnStore. fold mu. rewrite Huser.
  destruct (Js.truthyOpt (Store.activeSessionId (store c))) eqn:Hact.
  - cbn [fst snd negb] in *. rewrite Hsid. run_act.
    rewrite (JsFacts.truthy_true sid) by done. cbn [negb]. rewrite Hguard.
    run_act. fold (userTextOf c). fold mu. rewrite H1. run_act.
    destruct (chatReply env) as [|[] [| |d]]; run_act;
      cbn [negb store onStore setInput setMedia setLoading]; rewrite ?H2;
      run_act; try reflexivity.
    destruct (Js.truthyOpt (chat_title d)); reflexivity.
  - destruct (createSession_outcome env c uid (c, []) Huser)
      as (c1 & i & Hrun & Hi & _).
    cbn [negb]. run_act. rewrite Hrun in *. cbn [fst snd] in *.
    rewrite Hsid. rewrite (JsFacts.truthy_true sid) by done. cbn [negb].
    rewrite Hguard.
    run_act. fold (userTextOf c). fold mu. rewrite H1. run_act.
    destruct (chatReply env) as [|[] [| |d]]; run_act;
      cbn [negb store onStore setInput setMedia setLoading]; rewrite ?H2;
      run_act; try reflexivity.
    destruct (Js.truthyOpt (chat_title d)); reflexivity.
Qed.

(** When the user message cannot be appended, [sendMessage] throws at that
    point: nothing has happened but the resolution of the session. *)
Lemma sendMessage_throws (env : Env) (c : Component) (uid sid : string) :
  user c = Some uid →
  sessionForSend env c = Some sid →
  sid ≠ "" →
  Js.trim (input c) ≠ "" ∨ media c ≠ [] →
  Store.messagesOf (store (sessionResolved env c).1) sid = None →
  handle (sendMessage env) c = (Thrown, sessionResolved env c).
Proof.
  intros Huser Hsid Hne Hsend Hnone.
  pose proof (input_or_media c Hsend) as Hguard.
  assert (H1 : ∀ m, Store.appended sid m (store (sessionResolved env c).1) = None)
    by (intros m; unfold Store.appended; by rewrite Hnone).
  unfold sessionForSend, sessionResolved in *.
  unfold handle, sendMessage. rewrite Huser.
  destruct (Js.truthyOpt (Store.activeSessionId (store c))) eqn:Hact.
  - cbn [fst snd negb] in *. rewrite Hsid. run_act.
    rewrite (JsFacts.truthy_true sid) by done. cbn [negb]. rewrite Hguard.
    run_act. by rewrite H1.
  - destruct (createSession_outcome env c uid (c, []) Huser)
      as (c1 & i & Hrun & Hi & _).
    cbn [negb]. run_act. rewrite Hrun in *. cbn [fst snd] in *.
    rewrite Hsid. rewrite (JsFacts.truthy_true sid) by done. cbn [negb].
    rewrite Hguard. run_act. by rewrite H1.
Qed.

Lemma sessionResolved_active (env : Env) (c : Component) :
  Js.truthyOpt (Store.activeSessionId (store c)) = true →
  sessionResolved env c = (c, []).
Proof. intros H. unfold sessionResolved. by rewrite H. Qed.

Lemma truthyOpt_Some (s : string) : s ≠ "" → Js.truthyOpt (Some s) = true.
Proof. apply JsFacts.truthy_true. Qed.

(** The log of the session [sendMessage] works with, when it gets there:
    what is read for the active session, or the empty log of the session
    just created. *)
Lemma sessionResolved_log (env : Env) (c : Component) (uid sid : string) :
  user c = Some uid →
  sessionForSend env c = Some sid →
  Store.messagesOf (store (sessionResolved env c).1) sid
  = if Js.truthyOpt (Store.activeSessionId (store c))
    then Store.messagesOf (store c) sid else Some [].
Proof.
  intros Huser. unfold sessionForSend, sessionResolved.
  destruct (Js.truthyOpt _); [done|].
  destruct (createSession_outcome env c uid (c, []) Huser)
    as (c1 & i & -> & Hi & Hlog).
  cbn [fst snd]. rewrite Hi. intros [= ->].
  by apply StoreSpec.messagesOf_own.
Qed.

Lemma sessionResolved_effects (env : Env) (c : Component) (uid : string) :
  user c = Some uid →
  (sessionResolved env c).2 = []
  ∨ (sessionResolved env c).2 = [Fetch (PostSessionNew uid)].
Proof.
  intros Huser. unfold sessionResolved.
  destruct (Js.truthyOpt _); [by left|]. right.
  by destruct (createSession_outcome env c uid (c, []) Huser)
    as (c1 & i & -> & _).
Qed.

Lemma replyOnStore_log (env : Env) (sid : string) (st : Store.ChatState)
    (old : list Store.ChatMessage) :
  Store.messagesOf st sid = Some old →
  Store.messagesBySession (replyOnStore env sid st) !! sid
  = Some (old
          ++ [assistantMessage
                match chatReply env with
                | Response true (JsonValue d) => default "No response." (response d)
                | _ => "Network/server error. Try again."
                end]).
Proof.
  intros Hold. unfold replyOnStore.
  destruct (chatReply env) as [|[] [| |d]];
    try apply (StoreSpec.appended_ok sid _ st old Hold).
  destruct (Js.truthyOpt (chat_title d));
    apply (StoreSpec.appended_ok sid _ st old Hold).
Qed.

(** The log of [sid] after a send whose guards are passed and whose user
    message has been appended to [old]. *)
Lemma sendMessage_log (env : Env) (c : Component) (uid sid : string)
    (old : list Store.ChatMessage) :
  user c = Some uid →
  sessionForSend env c = Some sid →
  sid ≠ "" →
  Js.trim (input c) ≠ "" ∨ media c ≠ [] →
  Store.messagesOf (store (sessionResolved env c).1) sid = Some old →
  let c' := (handle (sendMessage env) c).2.1 in
  (handle (sendMessage env) c).1 = Normal ()
  ∧ Store.messagesBySession (store c') !! sid
    = Some (old
            ++ [ userMessage (userTextOf c) (media c);
                 assistantMessage
                   match chatReply env with
                   | Response true (JsonValue d) => default "No response." (response d)
                   | _ => "Network/server error. Try again."
                   end ])
  ∧ input c' = "" ∧ media c' = [] ∧ loading c' = false.
Proof.
  intros Huser Hsession Hsid Hsend Hold.
  rewrite (sendMessage_outcome env c uid sid old) by done.
  cbn [fst snd store input media loading setLoading onStore setMedia setInput].
  split_and!; try done.
  rewrite (replyOnStore_log env sid _ (old ++ [userMessage (userTextOf c) (media c)]))
    by (by apply StoreSpec.appended_ok).
  by rewrite <- app_assoc.
Qed.

(** A chat request has gone out only if the user message could be
    appended. *)
Lemma sendMessage_issued (env : Env) (c : Component) (uid sid : string) :
  user c = Some uid →
  sessionForSend env c = Some sid →
  sid ≠ "" →
  Js.trim (input c) ≠ "" ∨ media c ≠ [] →
  existsb isChatRequest (handle (sendMessage env) c).2.2 = true →
  ∃ old, Store.messagesOf (store (sessionResolved env c).1) sid = Some old.
Proof.
  intros Huser Hsession Hsid Hsend Hissued.
  destruct (Store.messagesOf (store (sessionResolved env c).1) sid) as [old|] eqn:Hold;
    [by exists old|].
  rewrite (sendMessage_throws env c uid sid) in Hissued by done.
  cbn [snd] in Hissued.
  by destruct (sessionResolved_effects env c uid Huser) as [He|He];
    rewrite He in Hissued.
Qed.

(** *** [sendMessage] *)

(** Conversely, once the guards are passed and the user message can be
    appended, the chat request goes out. *)
Lemma sendMessage_issues (env : Env) (c : Component) (uid sid : string)
    (old : list Store.ChatMessage) :
  user c = Some uid →
  sessionForSend env c = Some sid →
  sid ≠ "" →
  Js.trim (input c) ≠ "" ∨ media c ≠ [] →
  Store.messagesOf (store (sessionResolved env c).1) sid = Some old →
  existsb isChatRequest (handle (sendMessage env) c).2.2 = true.
Proof.
  intros Huser Hsession Hsid Hsend Hold.
  rewrite (sendMessage_outcome env c uid sid old) by done.
  cbn [fst snd]. rewrite existsb_app. cbn. apply orb_true_r.
Qed.





Lemma no_refresh_before_send (env : Env) (c : Component) (uid : string) :
  user c = Some uid → List.filter isRefresh (sessionResolved env c).2 = [].
Proof.
  intros Huser.
  by destruct (sessionResolved_effects env c uid Huser) as [-> | ->].
Qed.

(** The first message of an offline user: a local session is created, and
    the failure of the chat request ends up in its log. *)
Example sendMessage_offline_first_message :
  let w := (handle (sendMessage Demo.offline) (Demo.atRest Store.initial "hello")).2 in
  Store.activeSessionId (store w.1) = Some (randomUUID Demo.offline)
  ∧ Store.messagesBySession (store w.1) !! randomUUID Demo.offline
    = Some [ userMessage "hello" [];
             assistantMessage "Network/server error. Try again." ]
  ∧ w.2 = [ Fetch (PostSessionNew "u1");
            Fetch (PostChat "u1" (randomUUID Demo.offline) "hello" None []) ].
Proof. split_and!; by vm_compute. Qed.

(** A send in a session whose id is the name of an inherited member and
    which has no log yet: appending the user message throws, outside the
    [try]; nothing is logged, nothing is sent, the input stays. *)
Example sendMessage_inherited_id :
  handle (sendMessage Demo.online) Samples.hapless
  = (Thrown, (Samples.hapless, [])).
Proof. by vm_compute. Qed.

(** C4, as stated, fails: after a failed chat request no refresh is
    scheduled. *)
Lemma sendMessage_refresh_counterexample :
  user Demo.asking = Some "u1"
  ∧ Store.activeSessionId (store Demo.asking) = Some "s1"
  ∧ Js.trim (input Demo.asking) = "fever since yesterday"
  ∧ chatFailed (chatReply Demo.offline) = true
  ∧ List.filter isRefresh (handle (sendMessage Demo.offline) Demo.asking).2.2 = [].
Proof. split_and!; by vm_compute. Qed.

(** C4, amended. For every call to [sendMessage] that passes its guards and
    issues its chat request, a refresh of the session list is scheduled
    1200 ms later exactly when the chat request succeeds; when it fails,
    none is scheduled. *)
Theorem sendMessage_refresh (env : Env) (c : Component) (uid sid : string)
    (Huser : user c = Some uid)
    (Hsession : sessionForSend env c = Some sid)
    (Hsid : sid ≠ "")
    (Hsend : Js.trim (input c) ≠ "" ∨ media c ≠ [])
    (Hissued : existsb isChatRequest (handle (sendMessage env) c).2.2 = true) :
  List.filter isRefresh (handle (sendMessage env) c).2.2
  = if chatFailed (chatReply env) then []
    else [SetTimeout (LoadSessions uid) 1200].
Proof.
  destruct (sendMessage_issued env c uid sid Huser Hsession Hsid Hsend Hissued)
    as [old Hold].
  rewrite (sendMessage_outcome env c uid sid old) by done.
  cbn [fst snd]. rewrite List.filter_app, (no_refresh_before_send env c uid) by done.
  by destruct (chatFailed (chatReply env)).
Qed.

Lemma sendMessage_refresh_witness :
  List.filter isRefresh (handle (sendMessage Demo.online) Demo.asking).2.2
  = [SetTimeout (LoadSessions "u1") 1200].
Proof.
  apply (sendMessage_refresh Demo.online Demo.asking "u1" "s1");
    [reflexivity | by vm_compute | done | by left | by vm_compute].
Defined.

(** C5, as stated, fails: without an active session a session is created
    before the input is looked at. *)
Lemma sendMessage_empty_counterexample :
  user Demo.fresh = Some "u1"
  ∧ Js.trim (input Demo.fresh) = ""
  ∧ media Demo.fresh = []
  ∧ Store.sessions (store Demo.fresh) = []
  ∧ Store.sessions (store (handle (sendMessage Demo.offline) Demo.fresh).2.1)
    = [newChat "7c9e6679-7425-40de-944b-e07fc1f90ae7"]
  ∧ store (handle (sendMessage Demo.offline) Demo.fresh).2.1 ≠ store Demo.fresh.
Proof.
  split_and!; [by vm_compute..|].
  intros H. apply (f_equal Store.sessions) in H. by vm_compute in H.
Qed.

(** C5, amended. With an identified user, an input that is empty once
    trimmed and no attachment, [sendMessage] issues no chat request; when
    in addition a session is active it is a no-op: the component with its
    store is left as it was and no request at all is issued. *)
Theorem sendMessage_empty (env : Env) (c : Component) (uid : string)
    (Huser : user c = Some uid)
    (Hinput : Js.trim (input c) = "")
    (Hmedia : media c = []) :
  (∀ e, e ∈ (handle (sendMessage env) c).2.2 → isChatRequest e = false)
  ∧ (Js.truthyOpt (Store.activeSessionId (store c)) = true →
     handle (sendMessage env) c = (Normal (), (c, []))).
Proof.
  unfold handle, sendMessage. rewrite Huser, Hinput, Hmedia.
  destruct (Js.truthyOpt (Store.activeSessionId (store c))) eqn:Hact.
  - destruct (Store.activeSessionId (store c)) as [s|]; [|done].
    cbn in Hact. cbn [negb]. run_act. rewrite Hact. cbn.
    split; [|done]. intros e He. by apply elem_of_nil in He.
  - split; [|done]. cbn [negb]. run_act.
    destruct (createSession_outcome env c uid (c, []) Huser)
      as (c1 & i & -> & -> & _).
    cbn [fst snd]. destruct (Js.truthy i); cbn;
      intros e He; apply list_elem_of_singleton in He; by subst e.
Qed.

Lemma sendMessage_empty_witness :
  (∀ e, e ∈ (handle (sendMessage Demo.online) Demo.silent).2.2 →
     isChatRequest e = false)
  ∧ (Js.truthyOpt (Store.activeSessionId (store Demo.silent)) = true →
     handle (sendMessage Demo.online) Demo.silent = (Normal (), (Demo.silent, []))).
Proof.
  apply (sendMessage_empty Demo.online Demo.silent "u1"); by vm_compute.
Defined.

(** *** Voice capture *)

(** C8, as stated, fails: the fallback succeeds and a message about the
    condition is shown all the same. *)
Lemma rec_onerror_counterexample :
  let c' := (rec_onerror Demo.online "network" (Demo.listening, [])).2.1 in
  shownVoiceError Demo.listening = None
  ∧ recording c' = true
  ∧ mediaRecorderRef c' = Some (RecorderOn MicStream)
  ∧ shownVoiceError c'
    = Some "Browser voice service unavailable. Falling back to in-app recording.".
Proof. split_and!; by vm_compute. Qed.

(** C8, amended. On the error [network] the handler drops the live session,
    asks for the microphone once and completes normally.  When the
    microphone is granted and the recorder starts, raw recording is on and
    the message shown is the notice that the browser voice service is
    unavailable; otherwise nothing is recording and the message shown is
    that the microphone is unavailable.  The store is not touched. *)
Theorem rec_onerror_network (env : Env) (c : Component) :
  ∃ c',
    rec_onerror env "network" (c, []) = (Normal (), (c', [GetUserMedia]))
    ∧ speechRef c' = None
    ∧ voiceBusy c' = false
    ∧ store c' = store c
    ∧ match microphone env, recorderStarts env with
      | Some stream, true =>
          recording c' = true
          ∧ mediaRecorderRef c' = Some (RecorderOn stream)
          ∧ mediaStreamRef c' = Some stream
          ∧ audioChunksRef c' = []
          ∧ shownVoiceError c'
            = Some "Browser voice service unavailable. Falling back to in-app recording."
      | _, _ =>
          recording c' = false
          ∧ mediaRecorderRef c' = mediaRecorderRef c
          ∧ shownVoiceError c' = Some "Microphone access denied or unavailable."
      end.
Proof.
  unfold rec_onerror, startBackendRecordingCapture.
  change ("network" =? "network")%string with true. cbv iota.
  destruct (microphone env) as [stream|], (recorderStarts env); run_act;
    eexists; (split_and!; [reflexivity|done..]).
Qed.

(** Any other error is only reported: no fallback is attempted. *)
Lemma rec_onerror_other (env : Env) (error : string) (c : Component) :
  error ≠ "network" →
  rec_onerror env error (c, [])
  = (Normal (),
     (setVoiceError (String.append "Voice recognition error: " error) c, [])).
Proof.
  intros Hne. unfold rec_onerror.
  by destruct (String.eqb_spec error "network").
Qed.

End ChatSpec.

(** * Further properties of the store *)

Module StoreLaws.
Import Store.

Ltac store_eq :=
  unfold setMessages, clearSessionMessages, withMessages; cbn; f_equal.

Lemma unchanged_outside_trans (i : string) (a b c : ChatState) :
  unchanged_outside i a b → unchanged_outside i b c → unchanged_outside i a c.
Proof.
  intros (Hs & Ha & Hl & Hm) (Hs' & Ha' & Hl' & Hm').
  split_and!; [congruence..|]. intros j Hj. rewrite Hm', Hm; done.
Qed.

Lemma unchanged_outside_refl (i : string) (a : ChatState) : unchanged_outside i a a.
Proof. by split_and!. Qed.

Lemma appended_frame (i : string) (m : ChatMessage) (state next : ChatState) :
  appended i m state = Some next → unchanged_outside i state next.
Proof.
  unfold appended. destruct (messagesOf state i) as [old|]; [|done].
  intros [= <-]. unfold unchanged_outside. cbn. split_and!; try done.
  intros j Hj. by apply lookup_insert_ne.
Qed.

(** X1. When the log of a session can be read (the session has a log of its
    own, or its id is not the name of a member of [Object.prototype]), a
    run of appends goes through, puts the messages after the log the
    session had, in the order of the calls, and touches nothing else. *)
Theorem appendMessage_sequence (i : string) (ms old : list ChatMessage)
    (state : ChatState)
    (Hold : messagesOf state i = Some old) :
  ∃ state',
    appendAll i ms state = Some state'
    ∧ messagesOf state' i = Some (old ++ ms)
    ∧ unchanged_outside i state state'.
Proof.
  revert old state Hold. induction ms as [|m ms IH]; intros old state Hold.
  - exists state. cbn. rewrite app_nil_r. by split_and!.
  - destruct (StoreSpec.appended_ok i m state old Hold) as (Hnext & Hlog & _).
    destruct (IH _ _ Hlog) as (state' & Hrun & Hlog' & Hframe).
    exists state'. cbn [appendAll]. rewrite Hnext. split_and!; [done| |].
    + by rewrite Hlog', <- app_assoc.
    + eapply unchanged_outside_trans; [|exact Hframe].
      by apply (appended_frame i m).
Qed.

Lemma appendMessage_sequence_witness :
  ∃ state',
    appendAll "constructor" [Demo.fever; Demo.advice]
      (setMessages "constructor" [] Samples.unlogged) = Some state'
    ∧ messagesOf state' "constructor" = Some ([] ++ [Demo.fever; Demo.advice])
    ∧ unchanged_outside "constructor"
        (setMessages "constructor" [] Samples.unlogged) state'.
Proof.
  apply (appendMessage_sequence "constructor" [Demo.fever; Demo.advice] []).
  by vm_compute.
Defined.

(** An append to the name of an inherited member that has no log of its own
    throws and stores nothing. *)
Example appendMessage_inherited :
  appended "constructor" Demo.fever Samples.unlogged = None
  ∧ appendMessage "constructor" Demo.fever Samples.unlogged = Samples.unlogged
  ∧ appendAll "toString" [Demo.fever; Demo.advice] initial = None.
Proof. split_and!; by vm_compute. Qed.

(** X2. How the operations on one message log compose: the last [setMessages]
    wins, an append after [setMessages] goes through and extends what was
    set, a clear is idempotent, and after an append that went through a
    clear forgets what was appended and removing the session forgets the
    log altogether. *)
Theorem message_ops_compose (i : string) (ms ms' : list ChatMessage)
    (m : ChatMessage) (state : ChatState) :
  setMessages i ms (setMessages i ms' state) = setMessages i ms state
  ∧ appended i m (setMessages i ms state) = Some (setMessages i (ms ++ [m]) state)
  ∧ clearSessionMessages i (clearSessionMessages i state)
    = clearSessionMessages i state
  ∧ ∀ next, appended i m state = Some next →
      clearSessionMessages i next = clearSessionMessages i state
      ∧ removeSession i next = removeSession i state.
Proof.
  split_and!.
  - store_eq. apply insert_insert_eq.
  - unfold appended, messagesOf, JsObject.get. cbn. rewrite lookup_insert_eq.
    f_equal. store_eq. apply insert_insert_eq.
  - store_eq. apply insert_insert_eq.
  - intros next. unfold appended.
    destruct (messagesOf state i) as [old|]; [|done]. intros [= <-]. split.
    + store_eq. apply insert_insert_eq.
    + unfold removeSession. cbn. by rewrite delete_insert_eq.
Qed.

(** X3. Appends to two different sessions whose logs can both be read go
    through in either order and commute. *)
Theorem appendMessage_commute (i j : string) (m m' : ChatMessage)
    (state : ChatState) (a b : list ChatMessage)
    (Hij : i ≠ j)
    (Hi : messagesOf state i = Some a)
    (Hj : messagesOf state j = Some b) :
  ∃ state',
    appended j m' state ≫= appended i m = Some state'
    ∧ appended i m state ≫= appended j m' = Some state'.
Proof.
  destruct (StoreSpec.appended_ok i m state a Hi) as (Hi1 & _ & _).
  destruct (StoreSpec.appended_ok j m' state b Hj) as (Hj1 & _ & _).
  pose proof (StoreSpec.appendMessage_eq i m state a Hi) as Ei.
  pose proof (StoreSpec.appendMessage_eq j m' state b Hj) as Ej.
  assert (Hi2 : messagesOf (appendMessage j m' state) i = Some a)
    by (by rewrite Ej, StoreSpec.messagesOf_other).
  assert (Hj2 : messagesOf (appendMessage i m state) j = Some b)
    by (by rewrite Ei, StoreSpec.messagesOf_other).
  destruct (StoreSpec.appended_ok i m _ a Hi2) as (Hi3 & _ & _).
  destruct (StoreSpec.appended_ok j m' _ b Hj2) as (Hj3 & _ & _).
  exists (appendMessage i m (appendMessage j m' state)).
  rewrite Hi1, Hj1. cbn. rewrite Hi3, Hj3. split; [done|]. f_equal.
  rewrite (StoreSpec.appendMessage_eq i m _ a Hi2),
    (StoreSpec.appendMessage_eq j m' _ b Hj2), Ei, Ej.
  unfold withMessages. cbn. f_equal. by apply insert_insert_ne.
Qed.

Lemma appendMessage_commute_witness :
  ∃ state',
    appended "s2" Demo.advice initial ≫= appended "s1" Demo.fever = Some state'
    ∧ appended "s1" Demo.fever initial ≫= appended "s2" Demo.advice = Some state'.
Proof.
  by apply (appendMessage_commute "s1" "s2" Demo.fever Demo.advice initial [] []).
Defined.

Lemma filter_all {A} (P : A → Prop) `{∀ x, Decision (P x)} (l : list A) :
  (∀ x, x ∈ l → P x) → filter P l = l.
Proof.
  induction l as [|x l IH]; intros Hall; [done|].
  rewrite filter_cons_True by (apply Hall; left).
  f_equal. apply IH. intros y Hy. apply Hall. by right.
Qed.

Lemma fmap_unchanged {A} (f : A → A) (l : list A) :
  (∀ x, x ∈ l → f x = x) → f <$> l = l.
Proof.
  induction l as [|x l IH]; intros Hall; [done|]. cbn. f_equal.
  - apply Hall. left.
  - apply IH. intros y Hy. apply Hall. by right.
Qed.

Lemma removeSession_unknown (i : string) (state : ChatState) :
  ¬ hasSession (sessions state) i →
  messagesBySession state !! i = None →
  activeSessionId state ≠ Some i →
  removeSession i state = state.
Proof.
  intros Hsession Hlog Hactive.
  destruct state as [ss a mbs lang]. unfold removeSession. cbn in *.
  rewrite decide_False by done. f_equal.
  - apply filter_all. intros s Hs Hid. apply Hsession. by exists s.
  - by apply delete_id.
Qed.

(** X4. Removing a session that is not there does nothing: when no session has
    the id, no message log is kept under it and it is not the active one,
    the state is returned as it was. *)
Theorem removeSession_absent (i : string) (state : ChatState)
    (Hsession : ¬ hasSession (sessions state) i)
    (Hlog : messagesBySession state !! i = None)
    (Hactive : activeSessionId state ≠ Some i) :
  removeSession i state = state.
Proof.
  destruct state as [ss a mbs lang]. unfold removeSession. cbn in *.
  rewrite decide_False by done. f_equal.
  - apply filter_all. intros s Hs Hid. apply Hsession. by exists s.
  - by apply delete_id.
Qed.

Lemma removeSession_absent_witness :
  removeSession "s9" (run Demo.browsing initial) = run Demo.browsing initial.
Proof.
  apply (removeSession_absent "s9");
    [by apply (bool_decide_unpack _); vm_compute | by vm_compute | by vm_compute].
Defined.

(** X5. Removing a session twice is removing it once. *)
Theorem removeSession_idempotent (i : string) (state : ChatState) :
  removeSession i (removeSession i state) = removeSession i state.
Proof.
  apply removeSession_unknown.
  - cbn. rewrite StoreSpec.hasSession_filter. tauto.
  - apply lookup_delete_eq.
  - cbn. case_decide; congruence.
Qed.

(** X6. [updateSessionTitle] keeps the sessions in place with their ids and
    timestamps, gives the new title to every session with the id and leaves
    the other titles; it touches neither the logs, the active session nor
    the language, and changes nothing when no session has the id. *)
Theorem updateSessionTitle_spec (i t : string) (state : ChatState) :
  let state' := updateSessionTitle i t state in
  id <$> sessions state' = id <$> sessions state
  ∧ updated_at <$> sessions state' = updated_at <$> sessions state
  ∧ title <$> sessions state'
    = (λ s, if decide (id s = i) then t else title s) <$> sessions state
  ∧ activeSessionId state' = activeSessionId state
  ∧ messagesBySession state' = messagesBySession state
  ∧ language state' = language state
  ∧ (¬ hasSession (sessions state) i → state' = state).
Proof.
  cbn. split_and!; try done.
  - rewrite <- list_fmap_compose. apply list_fmap_ext.
    intros k s _. apply StoreSpec.retitle_id.
  - rewrite <- list_fmap_compose. apply list_fmap_ext.
    intros k s _. cbn. unfold retitle. by case_decide.
  - rewrite <- list_fmap_compose. apply list_fmap_ext.
    intros k s _. cbn. unfold retitle. by case_decide.
  - intros Hno. destruct state as [ss a mbs lang]. unfold updateSessionTitle.
    cbn in *. f_equal. apply fmap_unchanged. intros s Hs.
    unfold retitle. case_decide; [|done]. destruct Hno. by exists s.
Qed.

End StoreLaws.

(** * Properties of session sync *)

Module SyncSpec.
Import Chat Sync.

Ltac run_sync :=
  cbv beta iota zeta delta
    [handle mbind mret Act_bind Act_ret throw emit reads update tryCatch
     tryFinally fetch fetched json members onStoreDo fst snd].

(** *** [truncate] *)

Lemma strlen_append (a b : string) :
  String.length (String.append a b) = (String.length a + String.length b)%nat.
Proof. induction a as [|c a IH]; simpl; [done|]. by f_equal. Qed.

Lemma strlen_substring_0 (n : nat) (s : string) :
  String.length (substring 0 n s) = Nat.min n (String.length s).
Proof.
  revert s. induction n as [|n IH]; intros [|c s]; simpl; try done.
  f_equal. apply IH.
Qed.

Lemma strprefix_append (a b : string) : String.prefix a (String.append a b) = true.
Proof.
  induction a as [|c a IH]; simpl; [by destruct b|].
  destruct (ascii_dec c c); [done|congruence].
Qed.

Lemma substring_0_all (n : nat) (s : string) :
  (String.length s ≤ n)%nat → substring 0 n s = s.
Proof.
  revert s. induction n as [|n IH]; intros [|c s] Hle; simpl in *; try done; try lia.
  f_equal. apply IH. lia.
Qed.

(** X7. A title no longer than the limit is shown as it is; a longer one is cut
    to its first [limit] characters followed by three dots.  Either way the
    text shown starts with the first [limit] characters of the title. *)
Theorem truncate_spec (value : string) (limit : nat) :
  String.length (truncate value limit)
  = (if (limit <? String.length value)%nat then limit + 3 else String.length value)%nat
  ∧ String.prefix (substring 0 limit value) (truncate value limit) = true
  ∧ ((String.length value ≤ limit)%nat → truncate value limit = value).
Proof.
  unfold truncate. destruct (Nat.ltb_spec limit (String.length value)) as [Hlt|Hge].
  - split_and!.
    + rewrite strlen_append, strlen_substring_0.
      change (String.length "...") with 3%nat. lia.
    + apply strprefix_append.
    + lia.
  - split_and!; [done| |done].
    rewrite substring_0_all by done.
    clear. induction value as [|c v IH]; simpl; [done|].
    destruct (ascii_dec c c); [done|congruence].
Qed.

(** *** [loadSessions] *)

(** X8. A session list that arrives replaces the one in the store, row by row
    in the order of the reply, with [New chat] for a row without title; the
    active session, the message logs, the language and the composer are not
    touched, whether or not the active session is in the new list. *)
Theorem loadSessions_success (rows : list SessionApi) (uuid : string)
    (c : Component) :
  ∃ c',
    handle (loadSessions (Response true (JsonValue rows)) uuid) c
    = (Normal (), (c', []))
    ∧ c' = onStore (Store.setSessions (normalized <$> rows)) c
    ∧ Store.id <$> Store.sessions (store c') = api_id <$> rows
    ∧ Store.title <$> Store.sessions (store c')
      = (λ r, default "New chat" (api_title r)) <$> rows
    ∧ Store.activeSessionId (store c') = Store.activeSessionId (store c)
    ∧ Store.messagesBySession (store c') = Store.messagesBySession (store c)
    ∧ (Store.active_valid (store c') ↔
       ∀ i, Store.activeSessionId (store c) = Some i →
            Store.hasSession (normalized <$> rows) i).
Proof.
  eexists. split; [reflexivity|]. cbn. split_and!; try done.
  - by rewrite <- list_fmap_compose.
  - by rewrite <- list_fmap_compose.
Qed.

(** X9. When the list cannot be loaded (rejected fetch, status outside 2xx,
    body that is not JSON or has no rows to map), nothing is thrown.  What
    happens next is decided by the render in which the function was
    created, [render], not by the store as it is now: if that render had an
    active session the component is left exactly as it is; if it had none,
    the session set becomes a single local session titled [New chat] and no
    session is active any more, whatever was active by now, while the
    message logs are kept. *)
Theorem loadSessions_failure (reply : Fetched (list SessionApi)) (uuid : string)
    (render c : Component) (Hfail : failed reply = true) :
  loadSessions reply uuid render (c, [])
  = (Normal (),
     (if Js.truthyOpt (Store.activeSessionId (store render)) then c
      else onStore (λ st, Store.setActiveSession None
                            (Store.setSessions [newChat uuid] st)) c,
      [])).
Proof.
  unfold loadSessions.
  destruct reply as [|[] [| |rows]]; try discriminate Hfail; run_sync;
    destruct (Js.truthyOpt _); reflexivity.
Qed.

(** The refresh scheduled by a first send, run from the render of that send
    (in which no session was active yet) against the store the send has
    left: the failed refresh drops the session just created. *)
Lemma loadSessions_failure_witness :
  let sent := (handle (sendMessage Demo.online) Demo.fresh).2.1 in
  loadSessions (Response false JsonInvalid) "local-2" Demo.fresh (sent, [])
  = (Normal (),
     (onStore (λ st, Store.setActiveSession None
                       (Store.setSessions [newChat "local-2"] st)) sent,
      [])).
Proof.
  apply (loadSessions_failure (Response false JsonInvalid) "local-2" Demo.fresh).
  reflexivity.
Defined.

Example loadSessions_stale_render :
  let sent := (handle (sendMessage Demo.online) Demo.fresh).2.1 in
  let after :=
    (loadSessions NetworkError "local-2" Demo.fresh (sent, [])).2.1 in
  Store.activeSessionId (store sent) = Some "s3"
  ∧ Store.activeSessionId (store after) = None
  ∧ Store.id <$> Store.sessions (store after) = ["local-2"]
  ∧ Store.messagesBySession (store after) = Store.messagesBySession (store sent).
Proof. split_and!; by vm_compute. Qed.

(** *** [loadSessionMessages] *)

(** X10. Whatever the detail request answers, nothing is thrown and the log of
    the session asked for is replaced: by the messages of the reply, in
    order, with their roles and texts, or by the empty log when the request
    fails or carries no message array.  The other logs, the active session,
    the language and the ids of the session set stay as they were. *)
Theorem loadSessionMessages_outcome (reply : Fetched SessionDetailApi)
    (sessionId uid : string) (c : Component) :
  ∃ c',
    loadSessionMessages reply sessionId uid (c, []) = (Normal (), (c', []))
    ∧ Store.messagesBySession (store c') !! sessionId
      = Some match reply with
             | Response true (JsonValue d) =>
                 shownMessage <$> default [] (detail_messages d)
             | _ => []
             end
    ∧ (∀ j, j ≠ sessionId →
         Store.messagesBySession (store c') !! j
         = Store.messagesBySession (store c) !! j)
    ∧ Store.activeSessionId (store c') = Store.activeSessionId (store c)
    ∧ Store.language (store c') = Store.language (store c)
    ∧ Store.id <$> Store.sessions (store c') = Store.id <$> Store.sessions (store c)
    ∧ input c' = input c ∧ media c' = media c.
Proof.
  unfold loadSessionMessages.
  assert (Hns : ∀ i t (ss : list Store.SessionItem),
            Store.id <$> (Store.retitle i t <$> ss) = Store.id <$> ss).
  { intros i t ss. rewrite <- list_fmap_compose. apply list_fmap_ext.
    intros k s _. apply StoreSpec.retitle_id. }
  destruct reply as [|[] [| |[di dt du [rows|]]]]; run_sync; cbn;
    try (eexists; split; [reflexivity|]; cbn;
         split_and!; try done;
         [apply lookup_insert_eq | by intros j Hj; apply lookup_insert_ne]).
  destruct (Js.truthyOpt dt); eexists; (split; [reflexivity|]); cbn;
    (split_and!; try done;
     [apply lookup_insert_eq | by intros j Hj; apply lookup_insert_ne]).
Qed.

(** *** [deleteSession] *)

(** X11. For a signed-in user the [DELETE] request is issued and the session
    is removed from the store whatever becomes of the request, nothing is
    thrown, and a store in which the active session and the log keys name
    sessions stays so. *)
Theorem deleteSession_outcome (reply : Fetched unit) (i uid : string)
    (c : Component) (Huser : user c = Some uid) :
  handle (deleteSession reply i) c
  = (Normal (), (onStore (Store.removeSession i) c, [Fetch (Delete i uid)]))
  ∧ (consistent (store c) → consistent (Store.removeSession i (store c))).
Proof.
  split.
  - unfold handle, deleteSession. rewrite Huser.
    by destruct reply as [|ok body].
  - intros [Ha Hk]. split.
    + by apply (StoreSpec.active_valid_step (Store.OpRemoveSession i)).
    + by apply (StoreSpec.keys_valid_step (Store.OpRemoveSession i)).
Qed.

Lemma deleteSession_outcome_witness :
  handle (deleteSession NetworkError "s1") Demo.asking
  = (Normal (),
     (onStore (Store.removeSession "s1") Demo.asking, [Fetch (Delete "s1" "u1")]))
  ∧ (consistent (store Demo.asking) →
     consistent (Store.removeSession "s1" (store Demo.asking))).
Proof. by apply (deleteSession_outcome NetworkError "s1" "u1" Demo.asking). Defined.

End SyncSpec.

(** * The handlers keep the store consistent *)

Module ConsistencySpec.
Import Chat Sync.

Ltac run_sync := SyncSpec.run_sync.

Lemma existsb_hasSession (ss : list Store.SessionItem) (i : string) :
  existsb (λ s, String.eqb (Store.id s) i) ss = true ↔ Store.hasSession ss i.
Proof.
  unfold Store.hasSession. rewrite existsb_exists. split.
  - intros (s & Hin & Heq). exists s. split; [by apply list_elem_of_In|].
    by apply String.eqb_eq.
  - intros (s & Hin & Heq). exists s. split; [by apply list_elem_of_In|].
    by apply String.eqb_eq.
Qed.

Lemma createSession_shape (env : Env) (c : Component) (uid : string) :
  user c = Some uid →
  handle (createSession env) c
  = (Normal (),
     (setMedia [] (setInput ""
        (onStore (λ st,
           Store.setMessages (Store.id (opening env)) []
             (Store.setActiveSession (Some (Store.id (opening env)))
                (Store.setSessions
                   (if Sync.failed (sessionNewReply env)
                    then opening env :: Store.sessions (store c)
                    else mergedInto (opening env) (Store.sessions (store c)))
                   st))) c)),
      [Fetch (PostSessionNew uid)])).
Proof.
  intros Huser. unfold handle, createSession, opening, mergedInto. rewrite Huser.
  destruct (sessionNewReply env) as [|[] [| |d]]; run_sync; try reflexivity.
  cbn [Sync.failed Sync.normalized Store.id].
  by destruct (existsb _ _).
Qed.

Lemma hasSession_cons (s : Store.SessionItem) (ss : list Store.SessionItem)
    (k : string) :
  Store.hasSession (s :: ss) k ↔ k = Store.id s ∨ Store.hasSession ss k.
Proof.
  unfold Store.hasSession. split.
  - intros (x & Hin & Hid). apply elem_of_cons in Hin as [->|Hin]; eauto.
  - intros [->|(x & Hin & Hid)].
    + exists s. split; [left|done].
    + exists x. split; [by right|done].
Qed.

Lemma mergedInto_ids (next : Store.SessionItem) (ss : list Store.SessionItem) :
  Store.id <$> mergedInto next ss
  = if existsb (λ s, String.eqb (Store.id s) (Store.id next)) ss
    then Store.id <$> ss
    else Store.id next :: (Store.id <$> ss).
Proof.
  unfold mergedInto. destruct (existsb _ _); [|done]. cbn [negb].
  rewrite <- list_fmap_compose. apply list_fmap_ext. intros k s _. cbn.
  destruct (String.eqb_spec (Store.id s) (Store.id next)); done.
Qed.

Lemma hasSession_ids (ss : list Store.SessionItem) (k : string) :
  Store.hasSession ss k ↔ k ∈ Store.id <$> ss.
Proof.
  unfold Store.hasSession. rewrite list_elem_of_fmap. split.
  - intros (s & Hin & Hid). by exists s.
  - intros (s & Hid & Hin). by exists s.
Qed.

Lemma hasSession_mergedInto (next : Store.SessionItem)
    (ss : list Store.SessionItem) (k : string) :
  Store.hasSession (mergedInto next ss) k
  ↔ k = Store.id next ∨ Store.hasSession ss k.
Proof.
  rewrite !hasSession_ids, mergedInto_ids.
  destruct (existsb _ _) eqn:Hex.
  - apply existsb_hasSession, hasSession_ids in Hex.
    split; [by right|]. by intros [->|H].
  - apply elem_of_cons.
Qed.

(** The session list [createSession] installs. *)
Lemma hasSession_created (env : Env) (ss : list Store.SessionItem) (k : string) :
  Store.hasSession
    (if Sync.failed (sessionNewReply env) then opening env :: ss
     else mergedInto (opening env) ss) k
  ↔ k = Store.id (opening env) ∨ Store.hasSession ss k.
Proof.
  destruct (Sync.failed _); [apply hasSession_cons | apply hasSession_mergedInto].
Qed.

Lemma createSession_store_consistent (env : Env) (c : Component) (uid : string) :
  user c = Some uid →
  Store.keys_valid (store c) →
  consistent (store (handle (createSession env) c).2.1).
Proof.
  intros Huser Hkeys. rewrite (createSession_shape env c uid Huser).
  cbn. split.
  - intros i [= <-]. cbn. apply hasSession_created. by left.
  - intros k Hk. cbn in *. apply hasSession_created.
    destruct (decide (Store.id (opening env) = k)) as [->|Hne]; [by left|].
    rewrite lookup_insert_ne in Hk by done. right. by apply Hkeys.
Qed.

(** X12. [createSession], online or offline, leaves the store consistent: the
    session it makes active is in the session set, and every message log,
    the empty one it has just set included, belongs to a session of the
    set, provided that held for the logs before. *)
Theorem createSession_consistent (env : Env) (c : Component) (uid : string)
    (Huser : user c = Some uid)
    (Hkeys : Store.keys_valid (store c)) :
  consistent (store (handle (createSession env) c).2.1).
Proof.
  rewrite (createSession_shape env c uid Huser).
  cbn. split.
  - intros i [= <-]. cbn. apply hasSession_created. by left.
  - intros k Hk. cbn in *. apply hasSession_created.
    destruct (decide (Store.id (opening env) = k)) as [->|Hne]; [by left|].
    rewrite lookup_insert_ne in Hk by done. right. by apply Hkeys.
Qed.

Lemma createSession_consistent_witness :
  consistent (store (handle (createSession Demo.online) Demo.asking).2.1).
Proof.
  apply (createSession_consistent Demo.online Demo.asking "u1"); [reflexivity|].
  intros k [ms Hk]. apply (bool_decide_unpack _).
  destruct (decide (k = "s1")) as [->|Hne]; [by vm_compute|].
  exfalso. revert Hk. unfold Demo.asking, Demo.atRest, Demo.opened. cbn.
  by rewrite lookup_empty.
Defined.

(** X13. [createSession] does not duplicate a session id.  A session the
    server returns under an id already listed takes the place of the listed
    one, with the title and the timestamp of the reply, and the others stay
    where they are; a session under a new id goes in front.  Offline the
    local session goes in front, and the ids stay distinct when the random
    id is new. *)
Theorem createSession_unique (env : Env) (c : Component) (uid : string)
    (Huser : user c = Some uid)
    (Hnodup : NoDup (Store.id <$> Store.sessions (store c)))
    (Hfresh : Sync.failed (sessionNewReply env) = true →
              ¬ Store.hasSession (Store.sessions (store c)) (randomUUID env)) :
  let before := Store.sessions (store c) in
  let after := Store.sessions (store (handle (createSession env) c).2.1) in
  NoDup (Store.id <$> after)
  ∧ match sessionNewReply env with
    | Response true (JsonValue d) =>
        let next :=
          {| Store.id := api_id d;
             Store.title := default "New chat" (api_title d);
             Store.updated_at := api_updated_at d |} in
        (Store.hasSession before (api_id d) →
         after = (λ s, if decide (Store.id s = api_id d) then next else s) <$> before)
        ∧ (¬ Store.hasSession before (api_id d) → after = next :: before)
    | _ =>
        after
        = {| Store.id := randomUUID env;
             Store.title := "New chat";
             Store.updated_at := None |} :: before
    end.
Proof.
  cbn zeta. rewrite (createSession_shape env c uid Huser). cbn. split.
  - destruct (Sync.failed (sessionNewReply env)) eqn:Hfailed.
    + cbn. apply NoDup_cons. split; [|done].
      rewrite <- hasSession_ids.
      unfold opening. destruct (sessionNewReply env) as [|[] [| |d]];
        try discriminate Hfailed; by apply Hfresh.
    + rewrite mergedInto_ids. destruct (existsb _ _) eqn:Hex; [done|].
      apply NoDup_cons. split; [|done].
      rewrite <- hasSession_ids, <- existsb_hasSession. by rewrite Hex.
  - unfold opening, mergedInto.
    destruct (sessionNewReply env) as [|[] [| |d]]; cbn; try done.
    destruct (existsb _ _) eqn:Hex; cbn [negb].
    + apply existsb_hasSession in Hex. split; [|done]. intros _.
      apply list_fmap_ext. intros k s _. cbn.
      destruct (String.eqb_spec (Store.id s) (api_id d)); by case_decide.
    + split; [|done]. intros Hhas. apply existsb_hasSession in Hhas.
      cbn in Hhas. congruence.
Qed.

Lemma createSession_unique_witness :
  let after :=
    Store.sessions (store (handle (createSession Samples.relisting) Demo.asking).2.1) in
  NoDup (Store.id <$> after)
  ∧ after = [ {| Store.id := "s1";
                 Store.title := "Fever";
                 Store.updated_at := Some "2026-02-01T08:00:00Z" |} ].
Proof.
  destruct (createSession_unique Samples.relisting Demo.asking "u1")
    as [Hnodup [Hlisted _]].
  - reflexivity.
  - by apply (bool_decide_unpack _); vm_compute.
  - intros Hfailed. discriminate Hfailed.
  - split; [exact Hnodup|]. apply Hlisted.
    by apply (bool_decide_unpack _); vm_compute.
Defined.

(** X14. After [createSession] the new session is the active one and its
    conversation is empty: the landing view is shown, and the composer is
    cleared of text and attachments. *)
Theorem createSession_landing (env : Env) (c : Component) (uid : string)
    (Huser : user c = Some uid) :
  let c' := (handle (createSession env) c).2.1 in
  Store.activeSessionId (store c') = Some (Store.id (opening env))
  ∧ Sync.messages c' = inl []
  ∧ isLanding c' = true
  ∧ input c' = "" ∧ media c' = [].
Proof.
  rewrite (createSession_shape env c uid Huser).
  cbn [fst snd]. unfold isLanding, Sync.messages, JsObject.get. cbn.
  rewrite lookup_insert_eq. by destruct (Js.truthy _).
Qed.

Lemma createSession_landing_witness :
  let c' := (handle (createSession Demo.online) Demo.asking).2.1 in
  Store.activeSessionId (store c') = Some "s3"
  ∧ Sync.messages c' = inl []
  ∧ isLanding c' = true
  ∧ input c' = "" ∧ media c' = [].
Proof. by apply (createSession_landing Demo.online Demo.asking "u1"). Defined.

(** *** [sendMessage] *)

Lemma sendMessage_signed_out (env : Env) (c : Component) :
  user c = None → handle (sendMessage env) c = (Normal (), (c, [])).
Proof. intros Huser. unfold handle, sendMessage. by rewrite Huser. Qed.

(** When a guard stops [sendMessage], what has happened is the resolution
    of the session and nothing more. *)
Lemma sendMessage_skipped (env : Env) (c : Component) (uid : string) :
  user c = Some uid →
  (∀ sid, sessionForSend env c = Some sid → sid ≠ "" →
          Js.trim (input c) = "" ∧ media c = []) →
  handle (sendMessage env) c = (Normal (), sessionResolved env c).
Proof.
  intros Huser Hstop. unfold sessionForSend, sessionResolved in *.
  unfold handle, sendMessage. rewrite Huser.
  destruct (Js.truthyOpt (Store.activeSessionId (store c))) eqn:Hact.
  - cbn [negb fst snd] in *. run_sync.
    destruct (Store.activeSessionId (store c)) as [sid|]; [|done].
    cbn in Hact. rewrite Hact. cbn [negb].
    destruct (Hstop sid eq_refl) as [-> ->]; [|done].
    intros ->. done.
  - cbn [negb]. run_sync.
    destruct (ChatSpec.createSession_outcome env c uid (c, []) Huser)
      as (c1 & i & Hrun & Hi & _).
    rewrite Hrun in *. cbn [fst snd] in *. rewrite Hi in *.
    destruct (Js.truthy i) eqn:Hti; [|done]. cbn [negb].
    destruct (Hstop i eq_refl) as [-> ->]; [|done].
    intros ->. done.
Qed.

Lemma sessionResolved_consistent (env : Env) (c : Component) (uid : string) :
  user c = Some uid →
  consistent (store c) → consistent (store (sessionResolved env c).1).
Proof.
  intros Huser Hc. unfold sessionResolved.
  destruct (Js.truthyOpt _); [done|].
  apply (createSession_store_consistent env c uid Huser), Hc.
Qed.

Lemma appendMessage_consistent (i : string) (m : Store.ChatMessage)
    (st : Store.ChatState) :
  Store.hasSession (Store.sessions st) i →
  consistent st → consistent (Store.appendMessage i m st).
Proof.
  intros Hi [Ha Hk]. split.
  - by apply (StoreSpec.active_valid_step (Store.OpAppendMessage i m)).
  - by apply (StoreSpec.keys_valid_step (Store.OpAppendMessage i m)).
Qed.

Lemma updateSessionTitle_consistent (i t : string) (st : Store.ChatState) :
  consistent st → consistent (Store.updateSessionTitle i t st).
Proof.
  intros [Ha Hk]. split.
  - by apply (StoreSpec.active_valid_step (Store.OpUpdateSessionTitle i t)).
  - by apply (StoreSpec.keys_valid_step (Store.OpUpdateSessionTitle i t)).
Qed.

Lemma replyOnStore_consistent (env : Env) (i : string) (st : Store.ChatState) :
  Store.hasSession (Store.sessions st) i →
  consistent st → consistent (replyOnStore env i st).
Proof.
  intros Hi Hc. unfold replyOnStore.
  destruct (chatReply env) as [|[] [| |d]];
    try by apply appendMessage_consistent.
  destruct (Js.truthyOpt _).
  - by apply updateSessionTitle_consistent, appendMessage_consistent.
  - by apply appendMessage_consistent.
Qed.

Lemma send_guard_dec (c : Component) :
  (Js.trim (input c) ≠ "" ∨ media c ≠ [])
  ∨ (Js.trim (input c) = "" ∧ media c = []).
Proof.
  destruct (decide (Js.trim (input c) = "")) as [He|Hne]; [|by left; left].
  destruct (media c); [by right|by left; right].
Qed.

(** The ways [sendMessage] can go: stopped by a guard, or through. *)
Lemma sendMessage_dec (env : Env) (c : Component) (uid : string) :
  user c = Some uid →
  (∃ sid, sessionForSend env c = Some sid ∧ sid ≠ ""
          ∧ (Js.trim (input c) ≠ "" ∨ media c ≠ []))
  ∨ handle (sendMessage env) c = (Normal (), sessionResolved env c).
Proof.
  intros Huser.
  destruct (sessionForSend env c) as [sid|] eqn:Hsid;
    [|right; apply (sendMessage_skipped env c uid Huser); congruence].
  destruct (decide (sid = "")) as [->|Hne];
    [right; apply (sendMessage_skipped env c uid Huser); congruence|].
  destruct (send_guard_dec c) as [Hgo|Hstop].
  - left. by exists sid.
  - right. by apply (sendMessage_skipped env c uid Huser).
Qed.

(** X15. [sendMessage] keeps the store consistent, whatever the backend answers
    and whether or not a session had to be created first: afterwards the
    active session is still in the session set and every message log still
    belongs to a session of the set. *)
Theorem sendMessage_consistent (env : Env) (c : Component)
    (Hc : consistent (store c)) :
  consistent (store (handle (sendMessage env) c).2.1).
Proof.
  destruct (user c) as [uid|] eqn:Huser;
    [|by rewrite sendMessage_signed_out].
  pose proof (sessionResolved_consistent env c uid Huser Hc) as Hres.
  destruct (sendMessage_dec env c uid Huser) as [(sid & Hsid & Hne & Hgo)| ->];
    [|done].
  destruct (Store.messagesOf (store (sessionResolved env c).1) sid)
    as [old|] eqn:Hold;
    [|by rewrite (ChatSpec.sendMessage_throws env c uid sid)].
  rewrite (ChatSpec.sendMessage_outcome env c uid sid old) by done.
  cbn [fst snd store setLoading onStore setMedia setInput].
  assert (Hin : Store.hasSession
                  (Store.sessions (store (sessionResolved env c).1)) sid)
    by (apply (proj1 Hres); exact Hsid).
  apply replyOnStore_consistent;
    [by rewrite (StoreSpec.appendMessage_eq _ _ _ old)|].
  by apply appendMessage_consistent.
Qed.

Lemma sendMessage_consistent_witness :
  consistent (store (handle (sendMessage Demo.offline) Demo.fresh).2.1).
Proof.
  apply (sendMessage_consistent Demo.offline Demo.fresh).
  split.
  - intros i Hi. discriminate Hi.
  - intros k [ms Hk]. cbn in Hk. by rewrite lookup_empty in Hk.
Defined.

Lemma wireKind_known (k : Store.MediaKind) :
  wireKind k ∈ ["image"; "video"; "text"; "audio"].
Proof. destruct k; cbn; set_solver. Qed.

(** X16. No chat request carries an empty message, the language lock [auto] or
    an attachment of kind [pdf]: the message is the trimmed input or the
    placeholder, the lock is absent under [auto], and documents travel as
    [text]. *)
Theorem sendMessage_wire (env : Env) (c : Component)
    (u s m : string) (lock : option Store.Lang) (sent : list (string * string)) :
  Fetch (PostChat u s m lock sent) ∈ (handle (sendMessage env) c).2.2 →
  user c = Some u
  ∧ m ≠ ""
  ∧ lock ≠ Some (Store.Code "auto")
  ∧ (Store.language (store c) ≠ Store.Code "auto" →
     lock = Some (Store.language (store c)))
  ∧ List.length sent = List.length (media c)
  ∧ ∀ k b, (k, b) ∈ sent → k ∈ ["image"; "video"; "text"; "audio"].
Proof.
  destruct (user c) as [uid|] eqn:Huser;
    [|rewrite sendMessage_signed_out by done; cbn; by intros ?%elem_of_nil].
  assert (Hpre : ∀ r, Fetch r ∈ (sessionResolved env c).2 →
                      r = PostSessionNew uid).
  { intros r Hin.
    destruct (ChatSpec.sessionResolved_effects env c uid Huser) as [He|He];
      rewrite He in Hin; [by apply elem_of_nil in Hin|].
    apply list_elem_of_singleton in Hin. by injection Hin. }
  destruct (sendMessage_dec env c uid Huser) as [(sid & Hsid & Hne & Hgo)| ->];
    [|cbn [snd]; by intros ?%Hpre].
  destruct (Store.messagesOf (store (sessionResolved env c).1) sid)
    as [old|] eqn:Hold;
    [|rewrite (ChatSpec.sendMessage_throws env c uid sid) by done;
      cbn [snd]; by intros ?%Hpre].
  rewrite (ChatSpec.sendMessage_outcome env c uid sid old) by done.
  cbn [fst snd]. intros Hin.
  apply elem_of_app in Hin as [Hin|Hin]; [by apply Hpre in Hin|].
  apply elem_of_cons in Hin as [Heq|Hin].
  2:{ destruct (chatFailed _); [by apply elem_of_nil in Hin|].
      by apply list_elem_of_singleton in Hin. }
  injection Heq as -> -> -> -> ->. split_and!.
  - done.
  - unfold userTextOf. destruct (Js.truthy _) eqn:Ht; [|done].
    intros Hempty. rewrite Hempty in Ht. done.
  - destruct (isAuto (Store.language (store c))) eqn:Ha; [done|].
    intros [= Hl]. by rewrite Hl in Ha.
  - intros Hl. destruct (isAuto (Store.language (store c))) eqn:Ha; [|done].
    by apply ChatSpec.isAuto_true in Ha.
  - by rewrite length_fmap.
  - intros k b Hkb. apply list_elem_of_fmap in Hkb as (a & [= -> ->] & _).
    apply wireKind_known.
Qed.

Lemma sendMessage_wire_witness :
  user Samples.attaching = Some "u1"
  ∧ "[Media attached]" ≠ ""
  ∧ None ≠ Some (Store.Code "auto")
  ∧ (Store.language (store Samples.attaching) ≠ Store.Code "auto" →
     None = Some (Store.language (store Samples.attaching)))
  ∧ List.length [("image", "iVBORw0KGgo="); ("text", "JVBERi0xLjQ=")]
    = List.length (media Samples.attaching)
  ∧ ∀ k b, (k, b) ∈ [("image", "iVBORw0KGgo="); ("text", "JVBERi0xLjQ=")] →
           k ∈ ["image"; "video"; "text"; "audio"].
Proof.
  apply (sendMessage_wire Demo.online Samples.attaching "u1" "s1").
  vm_compute. set_solver.
Defined.

(** X17. A send with attachments and no text into an active session whose
    log can be appended to (the session has a log of its own, or its id names
    no member of [Object.prototype]): the call completes, the user message
    carries the placeholder text and the attachments pending at the call, in
    order, followed by one assistant message; the pending attachments and
    the input are cleared and [loading] is off again. *)
Theorem sendMessage_attachments_only (env : Env) (c : Component) (uid sid : string)
    (old : list Store.ChatMessage)
    (Huser : user c = Some uid)
    (Hactive : Store.activeSessionId (store c) = Some sid)
    (Hsid : sid ≠ "")
    (Hold : Store.messagesOf (store c) sid = Some old)
    (Hinput : Js.trim (input c) = "")
    (Hmedia : media c ≠ []) :
  let c' := (handle (sendMessage env) c).2.1 in
  (handle (sendMessage env) c).1 = Normal ()
  ∧ (∃ reply,
      Store.messagesBySession (store c') !! sid
      = Some (old
              ++ [ {| Store.role := Store.user;
                      Store.text := "[Media attached]";
                      Store.media := Some (media c) |};
                   {| Store.role := Store.assistant;
                      Store.text := reply;
                      Store.media := None |} ]))
  ∧ media c' = [] ∧ input c' = "" ∧ loading c' = false.
Proof.
  cbn zeta.
  assert (Hact : Js.truthyOpt (Store.activeSessionId (store c)) = true)
    by (rewrite Hactive; by apply ChatSpec.truthyOpt_Some).
  assert (Hsession : sessionForSend env c = Some sid)
    by (unfold sessionForSend; by rewrite ChatSpec.sessionResolved_active).
  assert (Hres : Store.messagesOf (store (sessionResolved env c).1) sid = Some old)
    by (rewrite (ChatSpec.sessionResolved_log env c uid sid Huser Hsession);
        by rewrite Hact).
  destruct (ChatSpec.sendMessage_log env c uid sid old Huser Hsession Hsid
              (or_intror Hmedia) Hres) as (Hdone & Hlog & Hin & Hmed & Hload).
  unfold userTextOf, userMessage in Hlog.
  rewrite Hinput in Hlog. cbn [Js.truthy String.eqb negb] in Hlog.
  destruct (media c) as [|a rest] eqn:Hm; [done|].
  split_and!; [exact Hdone|eexists; exact Hlog|exact Hmed|exact Hin|exact Hload].
Qed.

Lemma sendMessage_attachments_only_witness :
  let c' := (handle (sendMessage Demo.online) Samples.attaching).2.1 in
  (handle (sendMessage Demo.online) Samples.attaching).1 = Normal ()
  ∧ (∃ reply,
      Store.messagesBySession (store c') !! "s1"
      = Some ([]
              ++ [ {| Store.role := Store.user;
                      Store.text := "[Media attached]";
                      Store.media := Some (media Samples.attaching) |};
                   {| Store.role := Store.assistant;
                      Store.text := reply;
                      Store.media := None |} ]))
  ∧ media c' = [] ∧ input c' = "" ∧ loading c' = false.
Proof.
  apply (sendMessage_attachments_only Demo.online Samples.attaching "u1" "s1" []);
    by vm_compute.
Defined.

End ConsistencySpec.

(** * Session switch, language codes, attachments *)

Module MoreSpec.
Import Chat Sync Files.

Ltac run_sync := SyncSpec.run_sync.

(** X18. Opening a listed session as a signed-in user makes it the active one,
    replaces its log by what the detail request gives (the empty log when
    it fails), throws nothing and keeps the store consistent. *)
Theorem onSelectSession_consistent (reply : Fetched SessionDetailApi)
    (session : Store.SessionItem) (c : Component) (uid : string)
    (Huser : user c = Some uid)
    (Hlisted : session ∈ Store.sessions (store c))
    (Hc : consistent (store c)) :
  ∃ c',
    handle (onSelectSession reply session) c = (Normal (), (c', []))
    ∧ Store.activeSessionId (store c') = Some (Store.id session)
    ∧ Store.messagesBySession (store c') !! Store.id session
      = Some match reply with
             | Response true (JsonValue d) =>
                 shownMessage <$> default [] (detail_messages d)
             | _ => []
             end
    ∧ consistent (store c').
Proof.
  assert (Hhas : Store.hasSession (Store.sessions (store c)) (Store.id session))
    by (by exists session).
  destruct Hc as [Ha Hk].
  assert (Hset : ∀ ms,
    consistent (Store.setMessages (Store.id session) ms
                  (Store.setActiveSession (Some (Store.id session)) (store c)))).
  { intros ms. split.
    - apply (StoreSpec.active_valid_run
               [Store.OpSetActiveSession (Some (Store.id session));
                Store.OpSetMessages (Store.id session) ms]); [done|].
      by cbn.
    - apply (StoreSpec.keys_valid_run
               [Store.OpSetActiveSession (Some (Store.id session));
                Store.OpSetMessages (Store.id session) ms]); [done|].
      by cbn. }
  unfold handle, onSelectSession, loadSessionMessages. rewrite Huser.
  destruct reply as [|[] [| |[di dt du [rows|]]]]; run_sync; cbn;
    try (eexists; split; [reflexivity|]; cbn;
         split_and!; [done|apply lookup_insert_eq|apply Hset]).
  destruct (Js.truthyOpt dt); eexists; (split; [reflexivity|]); cbn;
    (split_and!; [done|apply lookup_insert_eq|]).
  - apply ConsistencySpec.updateSessionTitle_consistent, Hset.
  - apply Hset.
Qed.

Lemma onSelectSession_consistent_witness :
  ∃ c',
    handle (onSelectSession NetworkError Demo.s1) Demo.asking = (Normal (), (c', []))
    ∧ Store.activeSessionId (store c') = Some "s1"
    ∧ Store.messagesBySession (store c') !! "s1" = Some []
    ∧ consistent (store c').
Proof.
  apply (onSelectSession_consistent NetworkError Demo.s1 Demo.asking "u1").
  - reflexivity.
  - cbn. constructor.
  - split.
    + intros i [= <-]. by apply (bool_decide_unpack _); vm_compute.
    + intros k [ms Hk]. exfalso. revert Hk. cbn. by rewrite lookup_empty.
Defined.

(** *** [normalizeUiLanguage], again *)

Lemma normalized_values (full : string) :
  full ∈ ["en-IN"; "hi-IN"; "ta-IN"; "bn-IN"; "te-IN"; "mr-IN"; "auto"] →
  normalizeUiLanguage full = Store.Code full ∧ full ∈ LANGS.*1.
Proof.
  intros H. repeat (apply elem_of_cons in H as [->|H];
    [split; [by vm_compute|by apply (bool_decide_unpack _); vm_compute]|]).
  by apply elem_of_nil in H.
Qed.

Lemma languageTable_values (k full : string) :
  (k, full) ∈ languageTable →
  full ∈ ["en-IN"; "hi-IN"; "ta-IN"; "bn-IN"; "te-IN"; "mr-IN"; "auto"].
Proof.
  unfold languageTable. intros H.
  repeat (apply elem_of_cons in H as [[= -> ->]|H];
    [by apply (bool_decide_unpack _); vm_compute|]).
  by apply elem_of_nil in H.
Qed.

(** X19. With [lowered] the trimmed, lower-cased code: when [lowered] is
    [constructor] or [__proto__], [normalizeUiLanguage] returns no language
    code but the member of [Object.prototype] of that name, which the table
    inherits as an object.  For every other code it returns a code, which is
    either the code that was given or one of the codes the language selector
    offers, and normalizing that code again gives it back. *)
Theorem normalizeUiLanguage_stable (code : string) :
  let lowered := Js.toLowerCase (Js.trim code) in
  if decide (lowered = "constructor" ∨ lowered = "__proto__")
  then normalizeUiLanguage code = Store.Member lowered
  else ∃ r, normalizeUiLanguage code = Store.Code r
            ∧ normalizeUiLanguage r = Store.Code r
            ∧ (r = code ∨ r ∈ LANGS.*1).
Proof.
  cbn zeta. case_decide as Hm.
  - unfold normalizeUiLanguage. by destruct Hm as [-> | ->]; vm_compute.
  - assert (Hcases : normalizeUiLanguage code = Store.Code code
              ∨ ∃ full, normalizeUiLanguage code = Store.Code full
                  ∧ full ∈ ["en-IN"; "hi-IN"; "ta-IN"; "bn-IN"; "te-IN";
                            "mr-IN"; "auto"]).
    { unfold normalizeUiLanguage, JsObject.get.
      destruct (Js.truthy _); cbn [negb];
        [|right; eexists; split;
          [done|by apply (bool_decide_unpack _); vm_compute]].
      destruct (String.eqb _ "auto");
        [right; eexists; split;
         [done|by apply (bool_decide_unpack _); vm_compute]|].
      destruct (languageMap !! _) as [full|] eqn:Hfull.
      - right. exists full. split; [done|].
        apply ChatSpec.languageMap_table in Hfull.
        by apply languageTable_values in Hfull.
      - destruct (JsObject.inheritedMember _) eqn:Hinh; [|by left].
        destruct Hm. by apply ChatSpec.inheritedMember_lowered. }
    destruct Hcases as [Hsame|(full & Hfull & Hknown)].
    + exists code. split_and!; [done|done|by left].
    + destruct (normalized_values _ Hknown) as [Hfix Hopt].
      exists full. split_and!; [done|done|by right].
Qed.

(** *** Attachments *)

Lemma afterComma_append (p rest : string) :
  commaFree p → afterComma (String.append p (String "," rest)) = Some rest.
Proof.
  unfold commaFree. induction p as [|a p IH]; simpl; [done|].
  destruct (Ascii.eqb a ","); [done|]. exact IH.
Qed.

Lemma beforeComma_free (s : string) : commaFree s → beforeComma s = s.
Proof.
  unfold commaFree. induction s as [|a s IH]; simpl; [done|].
  destruct (Ascii.eqb a ","); [done|]. intros H. f_equal. by apply IH.
Qed.

Lemma beforeComma_commaFree (s : string) : commaFree (beforeComma s).
Proof.
  unfold commaFree. induction s as [|a s IH]; simpl; [done|].
  destruct (Ascii.eqb a ",") eqn:Ha; [done|]. simpl. by rewrite Ha.
Qed.

(** The payload kept from what the reader gives never contains a comma,
    and is empty when what was read has none. *)
Lemma secondField_commaFree (out : string) :
  commaFree (secondField out)
  ∧ (commaFree out → secondField out = "").
Proof.
  unfold secondField. split.
  - destruct (afterComma out); [apply beforeComma_commaFree|done].
  - unfold commaFree. by intros ->.
Qed.

(** X20. From a data URL, a header and a payload separated by one comma, the
    payload is what is kept. *)
Theorem secondField_dataUrl (header payload : string)
    (Hheader : commaFree header) (Hpayload : commaFree payload) :
  secondField (String.append header (String "," payload)) = payload.
Proof.
  unfold secondField. rewrite afterComma_append by done.
  by apply beforeComma_free.
Qed.

Lemma secondField_dataUrl_witness :
  secondField "data:image/png;base64,iVBORw0KGgo=" = "iVBORw0KGgo=".
Proof.
  apply (secondField_dataUrl "data:image/png;base64" "iVBORw0KGgo="); reflexivity.
Defined.

Lemma convert_ok (f : File) (w : World) :
  is_Some (file_read f) → convert f w = (Normal (attachmentOf f), w).
Proof.
  intros [out Hout]. unfold convert, fileToBase64, attachmentOf.
  by rewrite Hout.
Qed.

Lemma convert_fails (f : File) (w : World) :
  file_read f = None → convert f w = (Thrown, w).
Proof. intros Hout. unfold convert, fileToBase64. by rewrite Hout. Qed.

Lemma all_convert_ok (files : list File) (w : World) :
  Forall (λ f, is_Some (file_read f)) files →
  all convert files w = (Normal (attachmentOf <$> files), w).
Proof.
  induction 1 as [|f files Hf _ IH]; [done|].
  cbn [all]. run_sync. by rewrite (convert_ok f w Hf), IH.
Qed.

Lemma all_convert_fails (files : list File) (w : World) :
  Exists (λ f, file_read f = None) files →
  all convert files w = (Thrown, w).
Proof.
  induction files as [|f files IH]; intros Hex; [by apply Exists_nil in Hex|].
  cbn [all]. run_sync.
  destruct (file_read f) as [out|] eqn:Hout.
  - rewrite (convert_ok f w) by (by rewrite Hout).
    apply Exists_cons in Hex as [Hf|Hrest]; [congruence|].
    by rewrite IH.
  - by rewrite (convert_fails f w).
Qed.

(** X21. When every picked file can be read, one attachment per file is added
    after the pending ones, in the order of the files: the attachment of a
    file has the file's name, the payload of what was read from it, and the
    kind [image] for a type [image/...], [video] for a type [video/...] and
    [pdf] for every other type.  So none has the kind [audio], and what is
    neither an image nor a video will travel as [text]. *)
Theorem onPickFile_success (files : list File) (c : Component)
    (Hread : Forall (λ f, is_Some (file_read f)) files) :
  let converted :=
    (λ f, {| Store.kind :=
               if String.prefix "image/" (file_type f) then Store.image
               else if String.prefix "video/" (file_type f) then Store.video
               else Store.pdf;
             Store.content := secondField (default "" (file_read f));
             Store.name := Some (file_name f) |}) <$> files in
  onPickFile files (c, []) = (Normal (), (setMedia (media c ++ converted) c, []))
  ∧ Forall (λ a, Store.kind a ≠ Store.audio
                 ∧ (wireKind (Store.kind a) = "text" ↔ Store.kind a = Store.pdf))
      converted.
Proof.
  cbn zeta. split.
  - unfold onPickFile. destruct files as [|f files]; cbn [List.length Nat.eqb].
    + run_sync. cbn. rewrite app_nil_r. by destruct c.
    + run_sync. by rewrite (all_convert_ok (f :: files)).
  - apply Forall_fmap, Forall_forall. intros f _. cbn.
    destruct (String.prefix "image/" _);
      [|destruct (String.prefix "video/" _)]; by cbn.
Qed.

Lemma onPickFile_success_witness :
  let converted :=
    [ {| Store.kind := Store.image;
         Store.content := "iVBORw0KGgo=";
         Store.name := Some "xray.png" |};
      {| Store.kind := Store.pdf;
         Store.content := "SUQzBAA=";
         Store.name := Some "cough.mp3" |} ] in
  onPickFile Samples.picked (Demo.asking, [])
  = (Normal (), (setMedia (media Demo.asking ++ converted) Demo.asking, []))
  ∧ Forall (λ a, Store.kind a ≠ Store.audio
                 ∧ (wireKind (Store.kind a) = "text" ↔ Store.kind a = Store.pdf))
      converted.
Proof.
  apply (onPickFile_success Samples.picked Demo.asking).
  repeat constructor; by eexists.
Defined.

(** X22. When one of the picked files cannot be read, the pick throws and no
    attachment is added, not even for the files that were read. *)
Theorem onPickFile_failure (files : list File) (c : Component)
    (Hbad : Exists (λ f, file_read f = None) files) :
  onPickFile files (c, []) = (Thrown, (c, [])).
Proof.
  unfold onPickFile. destruct files as [|f files];
    [by apply Exists_nil in Hbad|]. cbn [List.length Nat.eqb].
  run_sync. by rewrite (all_convert_fails (f :: files)).
Qed.

Lemma onPickFile_failure_witness :
  onPickFile
    (Samples.picked
     ++ [{| file_type := "video/mp4"; file_name := "gait.mp4"; file_read := None |}])
    (Demo.asking, [])
  = (Thrown, (Demo.asking, [])).
Proof.
  apply (onPickFile_failure _ Demo.asking).
  by apply (bool_decide_unpack _); vm_compute.
Defined.

End MoreSpec.

(** * Properties of voice capture *)

Module VoiceSpec.
Import Chat Voice.

Ltac run_sync := SyncSpec.run_sync.

Ltac run_voice :=
  unfold handle, startVoiceRecording, stopVoiceRecording, transcribe,
    startBackendRecordingCapture, rec_onerror, rec_onend;
  run_sync.

(** X23. From the idle state [startVoiceRecording] throws nothing and ends in
    one of three states, the text and the store untouched: live recognition
    when the browser's session starts; raw recording, after one request for
    the microphone, when there is no such session and the recorder starts;
    idle again with the microphone message otherwise.  (A session whose
    [start()] throws is left out here.) *)
Theorem startVoiceRecording_phases (env : Env) (speech : Speech) (c : Component)
    (Hidle : idle c) (Hstart : speech ≠ SpeechStartThrows) :
  ∃ c' effects,
    handle (startVoiceRecording env speech) c = (Normal (), (c', effects))
    ∧ store c' = store c ∧ input c' = input c
    ∧ match speech, microphone env, recorderStarts env with
      | SpeechStarts, _, _ =>
          live c' ∧ voiceError c' = "" ∧ effects = []
      | _, Some stream, true =>
          raw c' ∧ voiceError c' = "" ∧ effects = [GetUserMedia]
          ∧ mediaStreamRef c' = Some stream ∧ audioChunksRef c' = []
      | _, _, _ =>
          idle c' ∧ effects = [GetUserMedia]
          ∧ voiceError c' = "Microphone access denied or unavailable."
      end.
Proof.
  destruct Hidle as (Hs & Hr & Hrec & Hbusy).
  unfold handle, startVoiceRecording. rewrite Hbusy.
  unfold startBackendRecordingCapture.
  destruct speech; try done;
    destruct (microphone env) as [stream|], (recorderStarts env); run_sync;
    eexists _, _; (split; [reflexivity|]); cbn; unfold idle, live, raw; cbn;
    split_and!; by eauto.
Qed.

Lemma startVoiceRecording_phases_witness :
  ∃ c' effects,
    handle (startVoiceRecording Demo.online NoSpeechCtor) Demo.asking
    = (Normal (), (c', effects))
    ∧ store c' = store Demo.asking ∧ input c' = input Demo.asking
    ∧ raw c' ∧ voiceError c' = "" ∧ effects = [GetUserMedia]
    ∧ mediaStreamRef c' = Some MicStream ∧ audioChunksRef c' = [].
Proof.
  apply (startVoiceRecording_phases Demo.online NoSpeechCtor Demo.asking);
    [by split_and!|done].
Defined.

(** X24. A live session that starts and then ends leaves the component as it
    was before the click, but for the voice message, which is cleared. *)
Theorem live_session_round_trip (env : Env) (c : Component) (Hidle : idle c) :
  ∃ c1,
    handle (startVoiceRecording env SpeechStarts) c = (Normal (), (c1, []))
    ∧ live c1
    ∧ rec_onend (c1, []) = (Normal (), (setVoiceError "" c, [])).
Proof.
  destruct Hidle as (Hs & Hr & Hrec & Hbusy).
  unfold handle, startVoiceRecording, rec_onend. rewrite Hbusy. run_sync.
  eexists. split; [reflexivity|]. split.
  - unfold live. cbn. split_and!; by eauto.
  - destruct c. cbn in *. by subst.
Qed.

Lemma live_session_round_trip_witness :
  ∃ c1,
    handle (startVoiceRecording Demo.online SpeechStarts) Demo.asking
    = (Normal (), (c1, []))
    ∧ live c1
    ∧ rec_onend (c1, []) = (Normal (), (setVoiceError "" Demo.asking, [])).
Proof.
  apply (live_session_round_trip Demo.online Demo.asking). by split_and!.
Defined.

Lemma stopVoiceRecording_ends_idle (stt : Stt) (c : Component) (uid : string)
    (recorder : Recorder) :
  user c = Some uid →
  speechRef c = None →
  mediaRecorderRef c = Some recorder →
  ∃ c',
    handle (stopVoiceRecording stt) c = (Normal (), (c', []))
    ∧ idle c'
    ∧ mediaStreamRef c' = None ∧ audioChunksRef c' = []
    ∧ Store.sessions (store c') = Store.sessions (store c)
    ∧ Store.activeSessionId (store c') = Store.activeSessionId (store c)
    ∧ Store.messagesBySession (store c') = Store.messagesBySession (store c)
    ∧ media c' = media c.
Proof.
  intros Huser Hlive Hrecorder.
  unfold handle, stopVoiceRecording, transcribe. run_sync.
  rewrite Hlive, Hrecorder, Huser.
  destruct stt as [message|[] data]; run_sync; cbn [negb];
    try (eexists; split; [reflexivity|]; unfold idle; cbn; by split_and!).
  destruct (Js.truthyOpt (stt_text data)),
    (isAuto (Store.language (store c)) &&
     Js.truthyOpt (stt_detected_lang data));
    run_sync; eexists; (split; [reflexivity|]); unfold idle; cbn; by split_and!.
Qed.

(** X25. Stopping a raw recording as a signed-in user always ends idle, whatever
    becomes of the transcription: the recorder and the stream are let go,
    the buffered chunks dropped and both flags off; nothing is thrown, and
    the sessions, the active session, the message logs and the pending
    attachments are not touched. *)
Theorem stopVoiceRecording_idle (stt : Stt) (c : Component) (uid : string)
    (recorder : Recorder)
    (Huser : user c = Some uid)
    (Hlive : speechRef c = None)
    (Hrecorder : mediaRecorderRef c = Some recorder) :
  ∃ c',
    handle (stopVoiceRecording stt) c = (Normal (), (c', []))
    ∧ idle c'
    ∧ mediaStreamRef c' = None ∧ audioChunksRef c' = []
    ∧ Store.sessions (store c') = Store.sessions (store c)
    ∧ Store.activeSessionId (store c') = Store.activeSessionId (store c)
    ∧ Store.messagesBySession (store c') = Store.messagesBySession (store c)
    ∧ media c' = media c.
Proof.
  unfold handle, stopVoiceRecording, transcribe. run_sync.
  rewrite Hlive, Hrecorder, Huser.
  destruct stt as [message|[] data]; run_sync; cbn [negb];
    try (eexists; split; [reflexivity|]; unfold idle; cbn; by split_and!).
  destruct (Js.truthyOpt (stt_text data)),
    (isAuto (Store.language (store c)) &&
     Js.truthyOpt (stt_detected_lang data));
    run_sync; eexists; (split; [reflexivity|]); unfold idle; cbn; by split_and!.
Qed.

Lemma stopVoiceRecording_idle_witness :
  ∃ c',
    handle (stopVoiceRecording Samples.heardHindi)
      (setMediaRecorderRef (Some (RecorderOn MicStream)) Demo.asking)
    = (Normal (), (c', []))
    ∧ idle c'
    ∧ mediaStreamRef c' = None ∧ audioChunksRef c' = []
    ∧ Store.sessions (store c') = Store.sessions (store Demo.asking)
    ∧ Store.activeSessionId (store c') = Store.activeSessionId (store Demo.asking)
    ∧ Store.messagesBySession (store c') = Store.messagesBySession (store Demo.asking)
    ∧ media c' = media Demo.asking.
Proof.
  apply (stopVoiceRecording_idle Samples.heardHindi
           (setMediaRecorderRef (Some (RecorderOn MicStream)) Demo.asking)
           "u1" (RecorderOn MicStream)); reflexivity.
Defined.

(** X26. What a transcription does.  A reply with a 2xx status adds its text to
    the input, after a space when the input is not empty, and sets the
    language to the normalized detected one when the selector was on [auto];
    the voice message is not touched.  Anything else leaves input and store
    alone and shows a message: the [detail] of the reply, the message of the
    error thrown, or the fixed text.  A language the user has chosen is
    never replaced. *)
Theorem stopVoiceRecording_transcript (stt : Stt) (c : Component) (uid : string)
    (recorder : Recorder)
    (Huser : user c = Some uid)
    (Hlive : speechRef c = None)
    (Hrecorder : mediaRecorderRef c = Some recorder) :
  let c' := (handle (stopVoiceRecording stt) c).2.1 in
  match stt with
  | SttReplies true data =>
      input c'
      = (if Js.truthyOpt (stt_text data)
         then joined (input c) (default "" (stt_text data)) else input c)
      ∧ Store.language (store c')
        = (if isAuto (Store.language (store c))
              && Js.truthyOpt (stt_detected_lang data)
           then normalizeUiLanguage (default "" (stt_detected_lang data))
           else Store.language (store c))
      ∧ voiceError c' = voiceError c
  | SttReplies false data =>
      input c' = input c ∧ store c' = store c
      ∧ voiceError c'
        = (if Js.truthyOpt (stt_detail data) then default "" (stt_detail data)
           else "Voice transcription failed.")
  | SttThrows message =>
      input c' = input c ∧ store c' = store c
      ∧ voiceError c' = default "Voice transcription failed." message
  end
  ∧ (Store.language (store c) ≠ Store.Code "auto" →
     Store.language (store c') = Store.language (store c)).
Proof.
  cbn zeta. unfold handle, stopVoiceRecording, transcribe. run_sync.
  rewrite Hlive, Hrecorder, Huser.
  destruct stt as [message|[] data]; run_sync; cbn [negb];
    try (cbn; by split_and!).
  destruct (isAuto (Store.language (store c))) eqn:Hauto;
    [apply ChatSpec.isAuto_true in Hauto|];
    destruct (Js.truthyOpt (stt_text data)),
      (Js.truthyOpt (stt_detected_lang data));
    run_sync; cbn; by split_and!.
Qed.

Lemma stopVoiceRecording_transcript_witness :
  let c := setMediaRecorderRef (Some (RecorderOn MicStream)) Demo.asking in
  let c' := (handle (stopVoiceRecording Samples.heardHindi) c).2.1 in
  (input c' = " fever since yesterday  mujhe bukhar hai"
   ∧ Store.language (store c') = Store.Code "hi-IN"
   ∧ voiceError c' = voiceError c)
  ∧ (Store.language (store c) ≠ Store.Code "auto" →
     Store.language (store c') = Store.language (store c)).
Proof.
  apply (stopVoiceRecording_transcript Samples.heardHindi
           (setMediaRecorderRef (Some (RecorderOn MicStream)) Demo.asking)
           "u1" (RecorderOn MicStream)); reflexivity.
Defined.

(** X27. The automatic fall-back, then a stop: after the error [network] with
    the microphone granted, a stop by the signed-in user ends idle with
    recorder, stream and chunks let go. *)
Theorem fallback_then_stop (env : Env) (stt : Stt) (c : Component)
    (uid : string) (stream : Stream)
    (Huser : user c = Some uid)
    (Hmic : microphone env = Some stream)
    (Hrecorder : recorderStarts env = true) :
  ∃ c1 c2,
    rec_onerror env "network" (c, []) = (Normal (), (c1, [GetUserMedia]))
    ∧ raw c1
    ∧ handle (stopVoiceRecording stt) c1 = (Normal (), (c2, []))
    ∧ idle c2 ∧ mediaStreamRef c2 = None ∧ audioChunksRef c2 = [].
Proof.
  assert (H1 : ∃ c1,
    rec_onerror env "network" (c, []) = (Normal (), (c1, [GetUserMedia]))
    ∧ raw c1 ∧ user c1 = Some uid
    ∧ mediaRecorderRef c1 = Some (RecorderOn stream)).
  { unfold rec_onerror, startBackendRecordingCapture.
    change ("network" =? "network")%string with true. cbv iota.
    rewrite Hmic, Hrecorder. run_sync.
    eexists. split; [reflexivity|]. split; [unfold raw; cbn; by eauto|done]. }
  destruct H1 as (c1 & Hrun & Hraw & Hu & Hr).
  destruct (stopVoiceRecording_ends_idle stt c1 uid _ Hu (proj1 Hraw) Hr)
    as (c2 & Hstop & Hidle & Hstream & Hchunks & _).
  by exists c1, c2.
Qed.

Lemma fallback_then_stop_witness :
  ∃ c1 c2,
    rec_onerror Demo.online "network" (Demo.listening, [])
    = (Normal (), (c1, [GetUserMedia]))
    ∧ raw c1
    ∧ handle (stopVoiceRecording (SttThrows None)) c1 = (Normal (), (c2, []))
    ∧ idle c2 ∧ mediaStreamRef c2 = None ∧ audioChunksRef c2 = [].
Proof.
  apply (fallback_then_stop Demo.online (SttThrows None) Demo.listening
           "u1" MicStream); reflexivity.
Defined.

(** X28. When [start()] of the live session throws, the session stays in
    [speechRef] while the fall-back runs.  With the microphone granted both
    a live session and a recorder are then held, and a stop only addresses
    the live session: the component stays as it is, still recording.  With
    the microphone refused [voiceBusy] stays set, and a further start does
    nothing. *)
Theorem startVoiceRecording_start_throws (env : Env) (stt : Stt) (c : Component)
    (Hidle : idle c) :
  ∃ c1,
    handle (startVoiceRecording env SpeechStartThrows) c
    = (Normal (), (c1, [GetUserMedia]))
    ∧ is_Some (speechRef c1)
    ∧ match microphone env, recorderStarts env with
      | Some stream, true =>
          mediaRecorderRef c1 = Some (RecorderOn stream)
          ∧ recording c1 = true
          ∧ handle (stopVoiceRecording stt) c1 = (Normal (), (c1, []))
      | _, _ =>
          voiceBusy c1 = true
          ∧ voiceError c1 = "Microphone access denied or unavailable."
          ∧ ∀ speech, handle (startVoiceRecording env speech) c1
                      = (Normal (), (c1, []))
      end.
Proof.
  destruct Hidle as (Hs & Hr & Hrec & Hbusy).
  unfold handle, startVoiceRecording, startBackendRecordingCapture,
    stopVoiceRecording. rewrite Hbusy.
  destruct (microphone env) as [stream|], (recorderStarts env); run_sync;
    eexists; (split; [reflexivity|]); cbn; split_and!; by eauto.
Qed.

Lemma startVoiceRecording_start_throws_witness :
  ∃ c1,
    handle (startVoiceRecording Demo.online SpeechStartThrows) Demo.asking
    = (Normal (), (c1, [GetUserMedia]))
    ∧ is_Some (speechRef c1)
    ∧ mediaRecorderRef c1 = Some (RecorderOn MicStream)
    ∧ recording c1 = true
    ∧ handle (stopVoiceRecording Samples.heardHindi) c1 = (Normal (), (c1, [])).
Proof.
  apply (startVoiceRecording_start_throws Demo.online Samples.heardHindi
           Demo.asking). by split_and!.
Defined.

(** X29. Without a signed-in user [sendMessage], [createSession] and
    [deleteSession] do nothing at all: the component is left as it is and
    the trace stays empty, so that no session is requested, no chat request
    is sent and no [DELETE] is issued.  [stopVoiceRecording] leaves a
    running raw recording running. *)
Theorem signed_out_noop (env : Env) (reply : Fetched unit) (stt : Stt)
    (i : string) (c : Component)
    (Huser : user c = None) :
  handle (sendMessage env) c = (Normal (), (c, []))
  ∧ handle (createSession env) c = (Normal (), (c, []))
  ∧ handle (Sync.deleteSession reply i) c = (Normal (), (c, []))
  ∧ (speechRef c = None →
     handle (stopVoiceRecording stt) c = (Normal (), (c, []))).
Proof.
  unfold handle, sendMessage, createSession, Sync.deleteSession,
    stopVoiceRecording. rewrite Huser. split_and!; try done.
  intros Hlive. run_sync. rewrite Hlive. by destruct (mediaRecorderRef c).
Qed.

Lemma signed_out_noop_witness :
  handle (sendMessage Demo.online) Samples.signedOut
  = (Normal (), (Samples.signedOut, []))
  ∧ handle (createSession Demo.online) Samples.signedOut
    = (Normal (), (Samples.signedOut, []))
  ∧ handle (Sync.deleteSession NetworkError "s1") Samples.signedOut
    = (Normal (), (Samples.signedOut, []))
  ∧ (speechRef Samples.signedOut = None →
     handle (stopVoiceRecording Samples.heardHindi) Samples.signedOut
     = (Normal (), (Samples.signedOut, []))).
Proof.
  by apply (signed_out_noop Demo.online NetworkError Samples.heardHindi "s1"
              Samples.signedOut).
Defined.

End VoiceSpec.
